(** * Indic scene-text tokenizers: segmentation, validation and label codec

    A shallow embedding of [HindiTokenizer] (src/hinditokenizer.py) and of
    the group validator of [MalayalamTokenizer] (src/malayalamtokenizer.py),
    with the properties of the specification that concern them.

    Modelling conventions.
    - A Python [str] is the list of its Unicode code points ([N]); a
      character [s[i]] is a string of length one, as in Python.
    - The class tables are written with their code points.  Every entry is
      its own NFKD normal form, so [_normalize_charset] leaves the tables
      as they are written here.
    - A Python tuple of groups is a list; a [dict] is a [gmap].
    - [torch] tensors of dtype long are lists of [Z] (one-dimensional) and
      lists of rows (two-dimensional); device placement is the identity.
    - [assert], [raise] and failing subscripts are the [Raise] results of
      the [result] type. *)

From Equations Require Import Equations.
From Stdlib Require Import NArith ZArith Lia.
From stdpp Require Import base list gmap.

(** ** Python and torch primitives *)

Module Py.

Definition str := list N.

Inductive exn :=
| AssertionError
| Exception
| IndexError
| KeyError
| RuntimeError.

Inductive result (A : Type) :=
| Ok (a : A)
| Raise (e : exn).
Arguments Ok {A} a.
Arguments Raise {A} e.

#[export] Instance result_ret : MRet result := λ A a, Ok a.
#[export] Instance result_bind : MBind result := λ A B k m,
  match m with
  | Ok a => k a
  | Raise e => Raise e
  end.

Definition of_option {A} (e : exn) (o : option A) : result A :=
  match o with
  | Some a => Ok a
  | None => Raise e
  end.

Definition assert (b : bool) : result unit :=
  if b then Ok tt else Raise AssertionError.

(** [s[i]] for [0 <= i]: the one-character string at [i].  Every
    subscript of the modelled code is guarded by a bound test, so the
    empty string returned out of range is never observed there. *)
Definition getitem (s : str) (i : nat) : str := take 1 (drop i s).

(** [s[a:b]] *)
Definition slice (s : str) (a b : nat) : str := take (b - a) (drop a s).

Definition str_eqb (a b : str) : bool := bool_decide (a = b).

(** [pat in s] on strings: [pat] occurs in [s] as a substring. *)
Fixpoint contains (pat s : str) : bool :=
  bool_decide (take (length pat) s = pat) ||
  match s with
  | [] => false
  | _ :: s' => contains pat s'
  end.

(** [s.replace(pat, "")] for a non-empty [pat]: the occurrences of
    [pat] are removed from left to right, without overlap. *)
Fixpoint remove_fuel (fuel : nat) (pat s : str) : str :=
  match fuel with
  | 0 => s
  | S fuel' =>
      match s with
      | [] => []
      | c :: s' =>
          if bool_decide (take (length pat) s = pat)
          then remove_fuel fuel' pat (drop (length pat) s)
          else c :: remove_fuel fuel' pat s'
      end
  end.
Definition remove (pat s : str) : str := remove_fuel (length s) pat s.

(** [{c: k for k, c in enumerate(classes)}]: a later entry overwrites an
    earlier one with the same key. *)
Definition rev_dict (classes : list str) : gmap str nat :=
  list_to_map (reverse (imap (λ k c, (c, k)) classes)).

(** [key in d] *)
Definition mem (key : str) (d : gmap str nat) : bool :=
  bool_decide (is_Some (d !! key)).

(** [torch.argmax] along the class dimension of one row: the index of
    the first maximal value; an empty row raises. *)
Fixpoint argmax_from (best : Z) (besti i : nat) (row : list Z) : nat :=
  match row with
  | [] => besti
  | x :: row' =>
      if (best <? x)%Z then argmax_from x i (S i) row'
      else argmax_from best besti (S i) row'
  end.
Definition argmax (row : list Z) : result nat :=
  match row with
  | [] => Raise IndexError
  | x :: row' => Ok (argmax_from x 0 1 row')
  end.

(** [for a in l: ...] with an accumulator, stopping at the first raise. *)
Fixpoint foldM {A S} (f : S → A → result S) (s : S) (l : list A) : result S :=
  match l with
  | [] => Ok s
  | a :: l' => s' ← f s a; foldM f s' l'
  end.

Fixpoint traverse {A B} (f : A → result B) (l : list A) : result (list B) :=
  match l with
  | [] => Ok []
  | a :: l' => b ← f a; bs ← traverse f l'; Ok (b :: bs)
  end.

End Py.

Import Py.

(** ** The Hindi tokenizer *)

Module Hindi.

Definition BLANK : str := [0x5B; 0x42; 0x5D]%N.   (* "[B]" *)
Definition EOS : str := [0x5B; 0x45; 0x5D]%N.     (* "[E]" *)
Definition PAD : str := [0x5B; 0x50; 0x5D]%N.     (* "[P]" *)

Definition chars (l : list N) : list str := (λ c, [c]) <$> l.

Definition vyanjan : list str := chars
  [0x915; 0x916; 0x917; 0x918; 0x919;
   0x91A; 0x91B; 0x91C; 0x91D; 0x91E;
   0x91F; 0x920; 0x921; 0x922; 0x923;
   0x924; 0x925; 0x926; 0x927; 0x928;
   0x92A; 0x92B; 0x92C; 0x92D; 0x92E;
   0x92F; 0x930; 0x932; 0x933; 0x935; 0x936;
   0x937; 0x938; 0x939]%N.
Definition svar : list str := chars
  [0x905; 0x906; 0x907; 0x908; 0x909;
   0x90A; 0x90B; 0x960; 0x90F; 0x910;
   0x913; 0x914; 0x972; 0x90D; 0x911]%N.
Definition matras : list str := chars
  [0x93E; 0x93F; 0x940; 0x941; 0x942; 0x943; 0x947; 0x948; 0x94B; 0x94C;
   0x945; 0x949; 0x901; 0x902; 0x903; 0x93C]%N.
Definition chinh : list str := chars
  [0x950; 0x20B9; 0x964; 0x21; 0x24; 0x2C; 0x2E; 0x2D; 0x25; 0x965; 0x97D]%N.
Definition ank : list str := chars
  [0x966; 0x967; 0x968; 0x969; 0x96A; 0x96B; 0x96C; 0x96D; 0x96E; 0x96F]%N.
Definition halanth : str := [0x94D]%N.

Definition nukta : str := [0x93C]%N.
Definition anusvara : str := [0x902]%N.
Definition visarga : str := [0x903]%N.

Definition h_c_classes : list str := [EOS; PAD; BLANK] ++ vyanjan.
Definition f_c_classes : list str := [EOS; PAD] ++ vyanjan ++ svar ++ ank ++ chinh.
Definition d_classes : list str := [EOS; PAD] ++ matras.

Definition eos_id : nat := 0.
Definition pad_id : nat := 1.
Definition blank_id : nat := 2.

(** [{k: c for k, c in enumerate(classes)}], as the lookup of the table. *)
Definition h_c_label_map (k : nat) : option str := h_c_classes !! k.
Definition f_c_label_map (k : nat) : option str := f_c_classes !! k.
Definition d_c_label_map (k : nat) : option str := d_classes !! k.

Definition rev_h_c_label_map : gmap str nat := rev_dict h_c_classes.
Definition rev_f_c_label_map : gmap str nat := rev_dict f_c_classes.
Definition rev_d_label_map : gmap str nat := rev_dict d_classes.

(** [get_charset]: the three class tuples and the halant. *)
Definition get_charset : list str :=
  h_c_classes ++ f_c_classes ++ d_classes ++ [halanth].

Definition _check_h_c (label : str) (idx : nat) : bool :=
  bool_decide (idx < length label)
  && mem (getitem label idx) rev_h_c_label_map
  && bool_decide (idx + 1 < length label)
  && str_eqb (getitem label (idx + 1)) halanth.

Definition _check_f_c (label : str) (idx : nat) : bool :=
  bool_decide (idx < length label)
  && mem (getitem label idx) rev_f_c_label_map
  && (bool_decide (length label ≤ idx + 1)
      || negb (str_eqb (getitem label (idx + 1)) halanth)).

Definition _check_d_c (label : str) (idx : nat) : bool :=
  bool_decide (idx < length label)
  && mem (getitem label idx) rev_d_label_map.

(** *** grp_sanity *)

Record counts := Counts {
  h_c_count : Z;
  f_c_count : Z;
  d_c_count : Z;
  d_seen : list str
}.

Definition counts0 : counts := Counts 2 1 2 [].

Inductive branch :=
| BHalf | BFull | BFirstDia | BNextDia | BDuplicate | BOther.

(** The branch of the [if]/[elif] chain taken at position [i] of [grp]. *)
Definition sanity_branch (grp : str) (i : nat) (st : counts) : branch :=
  let c := getitem grp i in
  if bool_decide (i + 1 < length grp)
     && str_eqb halanth (getitem grp (i + 1))
     && mem c rev_h_c_label_map
     && bool_decide (0 < h_c_count st)%Z
  then BHalf
  else if mem c rev_f_c_label_map && bool_decide (0 < f_c_count st)%Z
  then BFull
  else if mem c rev_d_label_map && bool_decide (d_c_count st = 2)%Z
  then BFirstDia
  else if mem c rev_d_label_map && negb (bool_decide (d_c_count st = 2)%Z)
          && negb (bool_decide (c ∈ d_seen st))
  then BNextDia
  else if mem c rev_d_label_map && negb (bool_decide (d_c_count st = 2)%Z)
          && bool_decide (c ∈ d_seen st)
  then BDuplicate
  else BOther.

(** The [while i < len(grp)] loop of one group: [None] is the
    [return False] of the duplicate branch, [Some st] the counters the
    loop ends with. *)
Equations? sanity_walk (grp : str) (i : nat) (st : counts) : option counts
  by wf (length grp - i) lt :=
  sanity_walk grp i st with decide (i < length grp) := {
    | right _ => Some st
    | left _ with sanity_branch grp i st := {
        | BHalf =>
            sanity_walk grp (i + 2)
              (Counts (h_c_count st - 1) (f_c_count st) (d_c_count st) (d_seen st))
        | BFull =>
            sanity_walk grp (i + 1)
              (Counts (h_c_count st) (f_c_count st - 1) (d_c_count st) (d_seen st))
        | BFirstDia =>
            sanity_walk grp (i + 1)
              (Counts (h_c_count st) (f_c_count st) (d_c_count st - 1)
                 (d_seen st ++ [getitem grp i]))
        | BNextDia =>
            sanity_walk grp (i + 1)
              (Counts (h_c_count st) (f_c_count st) (d_c_count st - 1) (d_seen st))
        | BDuplicate => None
        | BOther => sanity_walk grp (i + 1) st } }.
Proof. all: lia. Qed.

(** The test after the loop: no full character was counted. *)
Definition no_full (st : counts) : bool :=
  bool_decide (f_c_count st = 1)%Z
  || (bool_decide (h_c_count st = 2)%Z && bool_decide (f_c_count st = 1)%Z
      && bool_decide (d_c_count st = 2)%Z).

Definition grp_ok (grp : str) : bool :=
  match sanity_walk grp 0 counts0 with
  | None => false
  | Some st => negb (no_full st)
  end.

Fixpoint grp_sanity (label : str) (grps : list str) : bool :=
  match grps with
  | [] => true
  | grp :: grps' => if grp_ok grp then grp_sanity label grps' else false
  end.

(** *** label_transform *)

(** One iteration of the scan up to the test [t == idx]: the position
    after the group and the group ([running_grp]). *)
Definition scan_group (label : str) (idx : nat) : nat * str :=
  let '(idx, running_grp) :=
    if _check_h_c label idx then
      let running_grp := slice label idx (idx + 2) in
      let idx := idx + 2 in
      if _check_h_c label idx
      then (idx + 2, running_grp ++ slice label idx (idx + 2))
      else (idx, running_grp)
    else (idx, []) in
  let '(idx, running_grp) :=
    if _check_f_c label idx
    then (idx + 1, running_grp ++ getitem label idx)
    else (idx, running_grp) in
  if _check_d_c label idx then
    let running_grp := running_grp ++ getitem label idx in
    let idx := idx + 1 in
    if _check_d_c label idx
    then (idx + 1, running_grp ++ getitem label idx)
    else (idx, running_grp)
  else (idx, running_grp).

(** The scan loop: [None] is the [return ()] of a step that consumed
    nothing ([t == idx]), [Some grps] the groups handed to
    [grp_sanity]. *)
Equations? scan (label : str) (idx : nat) (grps : list str) : option (list str)
  by wf (length label - idx) lt :=
  scan label idx grps with decide (idx < length label) := {
    | right _ => Some grps
    | left _ with decide (idx = (scan_group label idx).1) := {
        | left _ => None
        | right _ =>
            scan label (scan_group label idx).1
              (grps ++ [(scan_group label idx).2]) } }.
Proof.
  assert (idx ≤ (scan_group label idx).1); [|lia].
  unfold scan_group. repeat case_match; simplify_eq/=; lia.
Qed.

Definition label_transform (label : str) : list str :=
  match scan label 0 [] with
  | None => []
  | Some grps => if grp_sanity label grps then grps else []
  end.

(** *** grp_class_encoder *)

Record enc_state := EncState {
  h_c_2_target : Z;
  h_c_1_target : Z;
  f_c_target : Z;
  d_target : list Z;
  halanth_cntr : nat
}.

(** [d[key]] as a class index *)
Definition class_of (d : gmap str nat) (key : str) : result nat :=
  of_option KeyError (d !! key).

(** The body of [for i, char in enumerate(grp)]. *)
Definition encode_char (grp : str) (st : enc_state) (ic : nat * str)
  : result enc_state :=
  let '(i, char) := ic in
  if mem char rev_h_c_label_map && bool_decide (i + 1 < length grp)
     && str_eqb (getitem grp (i + 1)) halanth
  then
    k ← class_of rev_h_c_label_map char;
    if bool_decide (h_c_1_target st = Z.of_nat blank_id)
    then Ok (EncState (h_c_2_target st) (Z.of_nat k) (f_c_target st)
               (d_target st) (halanth_cntr st))
    else Ok (EncState (h_c_1_target st) (Z.of_nat k) (f_c_target st)
               (d_target st) (halanth_cntr st))
  else if mem char rev_f_c_label_map then
    _ ← assert (bool_decide (f_c_target st = -1)%Z);
    k ← class_of rev_f_c_label_map char;
    Ok (EncState (h_c_2_target st) (h_c_1_target st) (Z.of_nat k)
          (d_target st) (halanth_cntr st))
  else if mem char rev_d_label_map then
    k ← class_of rev_d_label_map char;
    v ← of_option IndexError (d_target st !! k);
    _ ← assert (bool_decide (v = 0)%Z);
    Ok (EncState (h_c_2_target st) (h_c_1_target st) (f_c_target st)
          (<[k := 1%Z]> (d_target st)) (halanth_cntr st))
  else if str_eqb char halanth && bool_decide (halanth_cntr st < 2) then
    Ok (EncState (h_c_2_target st) (h_c_1_target st) (f_c_target st)
          (d_target st) (halanth_cntr st + 1))
  else if str_eqb char halanth && bool_decide (2 ≤ halanth_cntr st) then
    Raise Exception
  else Raise Exception.

Definition enumerate (s : str) : list (nat * str) := imap (λ i c, (i, [c])) s.

Definition sum_list (l : list Z) : Z := foldr Z.add 0%Z l.

Definition grp_class_encoder (grp : str) : result (Z * Z * Z * list Z) :=
  let st0 := EncState (Z.of_nat blank_id) (Z.of_nat blank_id) (-1)
               (replicate (length d_classes) 0%Z) 0 in
  st ← foldM (encode_char grp) st0 (enumerate grp);
  _ ← assert (negb (bool_decide (f_c_target st = -1)%Z));
  _ ← assert (bool_decide (sum_list (d_target st) ≤ 2)%Z);
  Ok (h_c_2_target st, h_c_1_target st, f_c_target st, d_target st).

(** *** label_encoder *)

Record encoded := Encoded {
  enc_h_c_2 : list Z;
  enc_h_c_1 : list Z;
  enc_f_c : list Z;
  enc_d : list (list Z);
  enc_len : nat
}.

(** The body of [for idx, grp in enumerate(grps)]. *)
Definition encode_row (e : encoded) (ig : nat * str) : result encoded :=
  let '(idx, grp) := ig in
  t ← grp_class_encoder grp;
  let '(h2, h1, f, d) := t in
  Ok (Encoded (<[idx := h2]> (enc_h_c_2 e)) (<[idx := h1]> (enc_h_c_1 e))
        (<[idx := f]> (enc_f_c e)) (<[idx := d]> (enc_d e)) (enc_len e)).

Definition label_encoder (max_grps : nat) (label : str) : result encoded :=
  let grps := label_transform label in
  let pad := Z.of_nat pad_id in
  let eos := Z.of_nat eos_id in
  let h_c_2 := replicate max_grps pad in
  let h_c_1 := replicate max_grps pad in
  let f_c := replicate max_grps pad in
  let d := replicate max_grps (replicate (length d_classes) 0%Z) in
  let d := (λ row, <[pad_id := 1%Z]> row) <$> d in
  let '(e, grps) :=
    if bool_decide (length grps < max_grps) then
      let eos_idx := length grps in
      (Encoded (<[eos_idx := eos]> h_c_2) (<[eos_idx := eos]> h_c_1)
         (<[eos_idx := eos]> f_c)
         (alter (λ row, <[eos_id := 1%Z]> row) eos_idx d) 0, grps)
    else (Encoded h_c_2 h_c_1 f_c d 0, take max_grps grps) in
  e ← foldM encode_row e (imap (λ idx grp, (idx, grp)) grps);
  Ok (Encoded (enc_h_c_2 e) (enc_h_c_1 e) (enc_f_c e) (enc_d e) (length grps)).

(** *** _decode_grp and decode *)

(** [h_c_label_map[k] + halanth if h_c_label_map[k] != BLANK and
    h_c_label_map[k] != PAD else ""] *)
Definition half_part (k : nat) : result str :=
  c ← of_option KeyError (h_c_label_map k);
  Ok (if negb (str_eqb c BLANK) && negb (str_eqb c PAD)
      then c ++ halanth else []).

(** [d_c_label_map[int(d_pred[i].item())] if d_max[i] else ""] *)
Definition dia_part (d_pred : list nat) (d_max : list Z) (i : nat) : result str :=
  m ← of_option IndexError (d_max !! i);
  if bool_decide (m = 0)%Z then Ok []
  else
    k ← of_option IndexError (d_pred !! i);
    of_option KeyError (d_c_label_map k).

(** The [if]/[elif] chain that orders the two diacritics. *)
Definition order_diacritics (d1 d2 : str) : str :=
  if contains d1 nukta then d1 ++ d2
  else if contains d2 nukta then d2 ++ d1
  else if contains d1 anusvara then d2 ++ d1
  else if contains d2 anusvara then d1 ++ d2
  else if contains d1 visarga then d2 ++ d1
  else if contains d2 visarga then d1 ++ d2
  else d1.

Definition _decode_grp (h_c_2_pred h_c_1_pred f_c_pred : nat)
  (d_pred : list nat) (d_max : list Z) : result str :=
  _ ← assert (bool_decide (length d_pred = length d_max)
              && bool_decide (length d_max = 2));
  p2 ← half_part h_c_2_pred;
  p1 ← half_part h_c_1_pred;
  f ← of_option KeyError (f_c_label_map f_c_pred);
  d1 ← dia_part d_pred d_max 0;
  d2 ← dia_part d_pred d_max 1;
  let grp := p2 ++ p1 ++ f ++ order_diacritics d1 d2 in
  Ok (remove PAD (remove BLANK grp)).

Section Decoder.

(** [sigmoid(x) > self.thresh] on one diacritic logit; logits are
    modelled as integers, of which [argmax] and [active] use the
    order only. *)
Variable active : Z → bool.
(** [torch.topk(row, k=2, largest=True)] on one row of the binary
    mask: the two largest values and their indices.  The order of
    equal values is not fixed by torch, so it is a parameter. *)
Variable topk2 : list Z → list Z * list nat.
Variable max_grps : nat.

Definition topk_row (row : list Z) : result (list Z * list nat) :=
  if bool_decide (length row < 2) then Raise RuntimeError
  else Ok (topk2 row).

(** The [for j in range(self.max_grps)] loop of one batch item. *)
Fixpoint decode_groups (js : list nat) (h_c_2_preds h_c_1_preds f_c_preds : list nat)
  (d_max : list (list Z)) (d_preds : list (list nat)) (label : str)
  : result str :=
  match js with
  | [] => Ok label
  | j :: js' =>
      h2 ← of_option IndexError (h_c_2_preds !! j);
      h1 ← of_option IndexError (h_c_1_preds !! j);
      f ← of_option IndexError (f_c_preds !! j);
      dp ← of_option IndexError (d_preds !! j);
      dm ← of_option IndexError (d_max !! j);
      grp ← _decode_grp h2 h1 f dp dm;
      if contains EOS grp then Ok label
      else decode_groups js' h_c_2_preds h_c_1_preds f_c_preds d_max d_preds
             (label ++ grp)
  end.

Definition decode
  (logits : list (list (list Z)) * list (list (list Z))
            * list (list (list Z)) * list (list (list Z)))
  : result (list str) :=
  let '(h_c_2_logits, h_c_1_logits, f_c_logits, d_logits) := logits in
  let batch_size := length h_c_2_logits in
  h_c_2_preds ← traverse (traverse argmax) h_c_2_logits;
  h_c_1_preds ← traverse (traverse argmax) h_c_1_logits;
  f_c_preds ← traverse (traverse argmax) f_c_logits;
  let d_bin_mask : list (list (list Z)) :=
    (λ item : list (list Z),
       (λ row : list Z, (λ x, if active x then 1%Z else 0%Z) <$> row) <$> item)
      <$> d_logits in
  tk ← traverse (traverse topk_row) d_bin_mask;
  let d_max : list (list (list Z)) :=
    (λ item : list (list Z * list nat), fst <$> item) <$> tk in
  let d_preds : list (list (list nat)) :=
    (λ item : list (list Z * list nat), snd <$> item) <$> tk in
  traverse (λ i,
      h2 ← of_option IndexError (h_c_2_preds !! i);
      h1 ← of_option IndexError (h_c_1_preds !! i);
      f ← of_option IndexError (f_c_preds !! i);
      dm ← of_option IndexError (d_max !! i);
      dp ← of_option IndexError (d_preds !! i);
      decode_groups (seq 0 max_grps) h2 h1 f dm dp [])
    (seq 0 batch_size).

End Decoder.

(** *** The perfect classifier

    The logits that encode a target exactly: one-hot rows for the
    half- and full-character heads, the multi-hot row itself for the
    diacritic head, in a batch of one item. *)

Definition one_hot (n k : nat) : list Z :=
  (λ i, if bool_decide (i = k) then 1%Z else 0%Z) <$> seq 0 n.

Definition exact_logits (e : encoded)
  : list (list (list Z)) * list (list (list Z))
    * list (list (list Z)) * list (list (list Z)) :=
  ([(λ k, one_hot (length h_c_classes) (Z.to_nat k)) <$> enc_h_c_2 e],
   [(λ k, one_hot (length h_c_classes) (Z.to_nat k)) <$> enc_h_c_1 e],
   [(λ k, one_hot (length f_c_classes) (Z.to_nat k)) <$> enc_f_c e],
   [enc_d e]).

(** [sigmoid(x) > 0.5], the default threshold: [x > 0]. *)
Definition active_half (x : Z) : bool := (0 <? x)%Z.

(** What [torch.topk(row, k=2)] guarantees on a row of at least two
    values: two distinct positions, their values in decreasing order,
    and no larger value elsewhere. *)
Definition topk2_spec (topk2 : list Z → list Z * list nat) : Prop :=
  ∀ row : list Z, 2 ≤ length row →
    ∃ v0 v1 p0 p1,
      topk2 row = ([v0; v1], [p0; p1]) ∧ p0 ≠ p1 ∧
      row !! p0 = Some v0 ∧ row !! p1 = Some v1 ∧ (v1 ≤ v0)%Z ∧
      ∀ j x, j ≠ p0 → j ≠ p1 → row !! j = Some x → (x ≤ v1)%Z.

(** Two implementations of [topk2]: equal values in the order of their
    positions, and in the opposite order. *)
Definition second_from (skip : nat) (row : list Z) : nat :=
  match filter (λ iv, iv.1 ≠ skip) (imap (λ i v, (i, v)) row) with
  | [] => 0
  | iv :: rest =>
      (foldl (λ (b iv : nat * Z), if (b.2 <? iv.2)%Z then iv else b) iv rest).1
  end.

Definition topk2_first (row : list Z) : list Z * list nat :=
  match argmax row with
  | Ok a => let b := second_from a row in ([row !!! a; row !!! b], [a; b])
  | Raise _ => ([], [])
  end.

Definition topk2_last (row : list Z) : list Z * list nat :=
  match topk2_first row with
  | ([v0; v1], [p0; p1]) =>
      if bool_decide (v0 = v1) then ([v1; v0], [p1; p0]) else ([v0; v1], [p0; p1])
  | r => r
  end.

End Hindi.

(** ** The group validator of the Malayalam tokenizer *)

Module Malayalam.

Definition BLANK : str := [0x5B; 0x42; 0x5D]%N.
Definition EOS : str := [0x5B; 0x45; 0x5D]%N.
Definition PAD : str := [0x5B; 0x50; 0x5D]%N.

Definition chars (l : list N) : list str := (λ c, [c]) <$> l.

Definition svar : list str := chars
  [0xD05; 0xD06; 0xD07; 0xD08; 0xD09; 0xD0A; 0xD0B; 0xD0E; 0xD0F; 0xD10;
   0xD12; 0xD13; 0xD14]%N.
Definition vyanjan : list str := chars
  [0xD15; 0xD16; 0xD17; 0xD18; 0xD19;
   0xD1A; 0xD1B; 0xD1C; 0xD1D; 0xD1E;
   0xD1F; 0xD20; 0xD21; 0xD22; 0xD23;
   0xD24; 0xD25; 0xD26; 0xD27; 0xD28;
   0xD2A; 0xD2B; 0xD2C; 0xD2D; 0xD2E;
   0xD2F; 0xD30; 0xD32; 0xD35; 0xD36;
   0xD37; 0xD38; 0xD39; 0xD33; 0xD34; 0xD31]%N.
Definition matras : list str :=
  chars [0xD3E; 0xD3F; 0xD40; 0xD41; 0xD42; 0xD43; 0xD48; 0xD57; 0xD46;
         0xD47; 0xD02; 0xD03; 0xD3B]%N
  ++ [[0xD41; 0xD4D]%N].
Definition halanth : str := [0xD4D]%N.
Definition chinh : list str := chars
  [0x20B9; 0x964; 0x21; 0x24; 0x25; 0x3F; 0x2E; 0x2C; 0x2D; 0x28; 0x29]%N.
Definition ank : list str := chars
  [0xD66; 0xD67; 0xD68; 0xD69; 0xD6A; 0xD6B; 0xD6C; 0xD6D; 0xD6E; 0xD6F]%N.
Definition chillaksharam : list str := chars
  [0xD7A; 0xD7B; 0xD7C; 0xD7D; 0xD7E]%N.
Definition sign_u : str := [0xD41]%N.

Definition h_c_classes : list str := [EOS; PAD; BLANK] ++ vyanjan.
Definition f_c_classes : list str :=
  [EOS; PAD; BLANK] ++ vyanjan ++ svar ++ ank ++ chinh ++ chillaksharam.
Definition d_classes : list str := [EOS; PAD] ++ matras.

Definition rev_h_c_label_map : gmap str nat := rev_dict h_c_classes.
Definition rev_f_c_label_map : gmap str nat := rev_dict f_c_classes.
Definition rev_d_label_map : gmap str nat := rev_dict d_classes.

(** [s[i]] for [-1 <= i < len(s)] on a non-empty [s]: a negative
    subscript counts from the end. *)
Definition getitem_z (s : str) (i : Z) : str :=
  if bool_decide (i < 0)%Z then getitem s (Z.to_nat (Z.of_nat (length s) + i))
  else getitem s (Z.to_nat i).

Record counts := Counts {
  h_c_count : Z;
  f_c_count : Z;
  d_c_count : Z;
  d_seen : list str
}.

Definition counts0 : counts := Counts 3 1 3 [].

Inductive branch :=
| BChilluAlone | BChilluBad
| BHalf | BFull | BDia | BDuplicate | BSignUHalanth | BReject.

(** The branch taken at position [i] of [grp]. *)
Definition sanity_branch (grp : str) (i : nat) (st : counts) : branch :=
  let c := getitem grp i in
  if bool_decide (c ∈ chillaksharam) then
    if negb (bool_decide (length grp = 1)) then BChilluBad else BChilluAlone
  else if bool_decide (i + 1 < length grp)
          && str_eqb halanth (getitem grp (i + 1))
          && mem c rev_h_c_label_map
          && bool_decide (0 < h_c_count st)%Z
  then BHalf
  else if mem c rev_f_c_label_map && bool_decide (0 < f_c_count st)%Z
  then BFull
  else if mem c rev_d_label_map && bool_decide (0 < d_c_count st)%Z
          && negb (bool_decide (c ∈ d_seen st))
  then BDia
  else if mem c rev_d_label_map && bool_decide (0 < d_c_count st)%Z
          && bool_decide (c ∈ d_seen st)
  then BDuplicate
  else if str_eqb c halanth && str_eqb (getitem_z grp (Z.of_nat i - 1)) sign_u
  then BSignUHalanth
  else BReject.

(** The [while i < len(grp)] loop of one group: [None] is a
    [return False] inside the loop. *)
Equations? sanity_walk (grp : str) (i : nat) (st : counts) : option counts
  by wf (length grp - i) lt :=
  sanity_walk grp i st with decide (i < length grp) := {
    | right _ => Some st
    | left _ with sanity_branch grp i st := {
        | BChilluBad => None
        | BChilluAlone =>
            sanity_walk grp (i + 1)
              (Counts (h_c_count st) (f_c_count st - 1) (d_c_count st) (d_seen st))
        | BHalf =>
            sanity_walk grp (i + 2)
              (Counts (h_c_count st - 1) (f_c_count st) (d_c_count st) (d_seen st))
        | BFull =>
            sanity_walk grp (i + 1)
              (Counts (h_c_count st) (f_c_count st - 1) (d_c_count st) (d_seen st))
        | BDia =>
            sanity_walk grp (i + 1)
              (Counts (h_c_count st) (f_c_count st) (d_c_count st - 1)
                 (d_seen st ++ [getitem grp i]))
        | BDuplicate => None
        | BSignUHalanth => sanity_walk grp (i + 2) st
        | BReject => None } }.
Proof. all: lia. Qed.

Inductive verdict := Continue | Return (b : bool).

(** One iteration of [for grp in grps]. *)
Definition check_group (grps : list str) (grp : str) : result verdict :=
  last_char ← (if bool_decide (grp = []) then Raise IndexError
               else Ok (getitem grp (length grp - 1)));
  if str_eqb last_char halanth && bool_decide (grp ∈ take (length grps - 1) grps)
  then Ok (Return false)
  else
    match sanity_walk grp 0 counts0 with
    | None => Ok (Return false)
    | Some st =>
        if bool_decide (f_c_count st = 1)%Z then
          if str_eqb (drop (length grp - 1) grp) halanth
          then Ok (Return true)
          else Ok (Return false)
        else Ok Continue
    end.

Fixpoint sanity_loop (grps rest : list str) : result bool :=
  match rest with
  | [] => Ok true
  | grp :: rest' =>
      v ← check_group grps grp;
      match v with
      | Return b => Ok b
      | Continue => sanity_loop grps rest'
      end
  end.

Definition grp_sanity (label : str) (grps : list str) : result bool :=
  sanity_loop grps grps.

(** *** label_transform *)

Definition special_matra : list str := chars [0xD02; 0xD03]%N.
(** The vowel signs the scan pairs up: െ, േ, ാ and ൗ. *)
Definition sign_e : str := [0xD46]%N.
Definition sign_ee : str := [0xD47]%N.
Definition sign_aa : str := [0xD3E]%N.
Definition au_length_mark : str := [0xD57]%N.

Definition _check_h_c (label : str) (idx : nat) : bool :=
  bool_decide (idx < length label)
  && mem (getitem label idx) rev_h_c_label_map
  && bool_decide (idx + 1 < length label)
  && str_eqb (getitem label (idx + 1)) halanth.

Definition _check_f_c (label : str) (idx : nat) : bool :=
  bool_decide (idx < length label)
  && mem (getitem label idx) rev_f_c_label_map
  && (bool_decide (length label ≤ idx + 1)
      || negb (str_eqb (getitem label (idx + 1)) halanth)).

Definition _check_d_c (label : str) (idx : nat) : bool :=
  bool_decide (idx < length label)
  && mem (getitem label idx) rev_d_label_map.

(** One iteration of the scan at a character that is no chillaksharam,
    up to the test [t == idx]: the position after the group and the
    group ([running_grp]). *)
Definition scan_group (label : str) (idx : nat) : nat * str :=
  let '(idx, running_grp) :=
    if _check_h_c label idx then
      let running_grp := slice label idx (idx + 2) in
      let idx := idx + 2 in
      if _check_h_c label idx then
        let running_grp := running_grp ++ slice label idx (idx + 2) in
        let idx := idx + 2 in
        if _check_h_c label idx
        then (idx + 2, running_grp ++ slice label idx (idx + 2))
        else (idx, running_grp)
      else (idx, running_grp)
    else (idx, []) in
  let '(idx, running_grp, f_c_flag) :=
    if _check_f_c label idx
       && negb (bool_decide (getitem label idx ∈ chillaksharam))
    then (idx + 1, running_grp ++ getitem label idx,
          negb (bool_decide (getitem label idx ∈ ank ++ chinh)))
    else (idx, running_grp, false) in
  if _check_d_c label idx && f_c_flag then
    let running_grp := running_grp ++ getitem label idx in
    let idx := idx + 1 in
    let '(idx, running_grp) :=
      if bool_decide (idx < length label)
         && str_eqb (getitem label (idx - 1)) sign_u
         && str_eqb (getitem label idx) halanth
      then (idx + 1, running_grp ++ getitem label idx)
      else if bool_decide (idx < length label) then
        if str_eqb (getitem label (idx - 1)) sign_e then
          if bool_decide (getitem label idx ∈ [sign_e; au_length_mark; sign_aa])
          then (idx + 1, running_grp ++ getitem label idx)
          else (idx, running_grp)
        else if str_eqb (getitem label (idx - 1)) sign_ee
                && str_eqb (getitem label idx) sign_aa
        then (idx + 1, running_grp ++ getitem label idx)
        else if str_eqb (getitem label (idx - 1)) sign_aa then
          if bool_decide (getitem label idx ∈ [sign_e; sign_ee])
          then (idx + 1, running_grp ++ getitem label idx)
          else (idx, running_grp)
        else if str_eqb (getitem label (idx - 1)) au_length_mark then
          if str_eqb (getitem label idx) sign_e
          then (idx + 1, running_grp ++ getitem label idx)
          else (idx, running_grp)
        else (idx, running_grp)
      else (idx, running_grp) in
    if bool_decide (idx < length label)
       && bool_decide (getitem label idx ∈ special_matra)
    then (idx + 1, running_grp ++ getitem label idx)
    else (idx, running_grp)
  else (idx, running_grp).

(** [if running_grp != "": grps = grps + (running_grp, )] *)
Definition add_group (grps : list str) (running_grp : str) : list str :=
  if bool_decide (running_grp = []) then grps else grps ++ [running_grp].

(** The scan loop: a chillaksharam is a group of its own; [None] is the
    [return ()] of a step that consumed nothing. *)
Equations? scan (label : str) (idx : nat) (grps : list str) : option (list str)
  by wf (length label - idx) lt :=
  scan label idx grps with decide (idx < length label) := {
    | right _ => Some grps
    | left _ with bool_decide (getitem label idx ∈ chillaksharam) := {
        | true => scan label (idx + 1) (add_group grps (getitem label idx))
        | false with decide (idx = (scan_group label idx).1) := {
            | left _ => None
            | right _ =>
                scan label (scan_group label idx).1
                  (add_group grps (scan_group label idx).2) } } }.
Proof.
  - lia.
  - assert (idx ≤ (scan_group label idx).1); [|lia].
    unfold scan_group. repeat case_match; simplify_eq/=; lia.
Qed.

Definition label_transform (label : str) : result (list str) :=
  match scan label 0 [] with
  | None => Ok []
  | Some grps => b ← grp_sanity label grps; Ok (if (b : bool) then grps else [])
  end.

End Malayalam.
(** ** The grammar of the groups the Hindi scan emits *)

Module Grammar.
Import Hindi.

Definition HAL : N := 0x94D%N.
Definition is_h (c : N) : bool := mem [c] rev_h_c_label_map.
Definition is_f (c : N) : bool := mem [c] rev_f_c_label_map.
Definition is_d (c : N) : bool := mem [c] rev_d_label_map.

Inductive halves := NoHalf | OneHalf (c : N) | TwoHalves (c1 c2 : N).
Inductive dias := NoDia | OneDia (d : N) | TwoDias (d1 d2 : N).
Record group := Group { g_halves : halves; g_full : option N; g_dias : dias }.

Definition render_halves (hs : halves) : str :=
  match hs with
  | NoHalf => []
  | OneHalf c => [c; HAL]
  | TwoHalves c1 c2 => [c1; HAL; c2; HAL]
  end.
Definition render_full (f : option N) : str :=
  match f with
  | None => []
  | Some c => [c]
  end.
Definition render_dias (ds : dias) : str :=
  match ds with
  | NoDia => []
  | OneDia d => [d]
  | TwoDias d1 d2 => [d1; d2]
  end.
Definition render (g : group) : str :=
  render_halves (g_halves g) ++ render_full (g_full g) ++ render_dias (g_dias g).

Definition halves_ok (hs : halves) : bool :=
  match hs with
  | NoHalf => true
  | OneHalf c => is_h c
  | TwoHalves c1 c2 => is_h c1 && is_h c2
  end.
Definition full_ok (f : option N) : bool :=
  match f with
  | None => true
  | Some c => is_f c
  end.
Definition dias_ok (ds : dias) : bool :=
  match ds with
  | NoDia => true
  | OneDia d => is_d d
  | TwoDias d1 d2 => is_d d1 && is_d d2
  end.
Definition well_formed (g : group) : bool :=
  halves_ok (g_halves g) && full_ok (g_full g) && dias_ok (g_dias g).

(** The groups [grp_sanity] lets through: a full character, and two
    diacritics only if they differ. *)
Definition dias_distinct (ds : dias) : bool :=
  match ds with
  | TwoDias d1 d2 => negb (d1 =? d2)%N
  | _ => true
  end.
Definition valid (g : group) : bool :=
  match g_full g with Some _ => true | None => false end
  && dias_distinct (g_dias g).

(** The class indices of a character, and the targets
    [grp_class_encoder] is expected to give for a group. *)
Definition idx_h (c : N) : nat := default 0 (rev_h_c_label_map !! ([c] : str)).
Definition idx_f (c : N) : nat := default 0 (rev_f_c_label_map !! ([c] : str)).
Definition idx_d (c : N) : nat := default 0 (rev_d_label_map !! ([c] : str)).

(** A character's index leads back to it, and lies in [lo, length). *)
Definition lookup_ok (rev : gmap str nat) (classes : list str) (lo : nat)
  (c : N) : bool :=
  match rev !! ([c] : str) with
  | Some k =>
      (lo <=? k) && (k <? length classes)
      && bool_decide (classes !! k = Some [c])
  | None => false
  end.
Definition h_facts (c : N) : bool :=
  is_f c && negb (is_d c) && negb (c =? HAL)%N
  && lookup_ok rev_h_c_label_map h_c_classes 3 c.
Definition f_facts (c : N) : bool :=
  negb (is_d c) && negb (c =? HAL)%N
  && lookup_ok rev_f_c_label_map f_c_classes 2 c.
Definition d_facts (c : N) : bool :=
  negb (is_h c) && negb (is_f c) && negb (c =? HAL)%N
  && lookup_ok rev_d_label_map d_classes 2 c.

Definition zeros : list Z := replicate (length d_classes) 0%Z.

Definition target_h2 (hs : halves) : Z :=
  match hs with
  | TwoHalves c1 _ => Z.of_nat (idx_h c1)
  | _ => Z.of_nat blank_id
  end.
Definition target_h1 (hs : halves) : Z :=
  match hs with
  | NoHalf => Z.of_nat blank_id
  | OneHalf c => Z.of_nat (idx_h c)
  | TwoHalves _ c2 => Z.of_nat (idx_h c2)
  end.
Definition target_f (f : option N) : Z :=
  match f with
  | Some c => Z.of_nat (idx_f c)
  | None => (-1)%Z
  end.
Definition target_d (ds : dias) : list Z :=
  match ds with
  | NoDia => zeros
  | OneDia d => <[idx_d d := 1%Z]> zeros
  | TwoDias d1 d2 => <[idx_d d2 := 1%Z]> (<[idx_d d1 := 1%Z]> zeros)
  end.
Definition target (g : group) : Z * Z * Z * list Z :=
  (target_h2 (g_halves g), target_h1 (g_halves g), target_f (g_full g),
   target_d (g_dias g)).

(** The rows [label_encoder] starts from and the one it marks the end
    with. *)
Definition pad_row : list Z := <[pad_id := 1%Z]> zeros.
Definition eos_row : list Z := <[eos_id := 1%Z]> pad_row.

(** [vals] written over [l] from position [k] on. *)
Definition overwrite {A} (k : nat) (vals l : list A) : list A :=
  take k l ++ vals ++ drop (k + length vals) l.

(** The encoding of a label whose groups are [gs]. *)
Definition after (max_grps n : nat) {A} (eos pad : A) : list A :=
  if bool_decide (n < max_grps) then eos :: replicate (max_grps - n - 1) pad
  else [].
Definition expected (max_grps : nat) (gs : list group) : encoded :=
  let kept := take max_grps gs in
  let n := length gs in
  Encoded
    (((λ g, target_h2 (g_halves g)) <$> kept) ++ after max_grps n 0%Z 1%Z)
    (((λ g, target_h1 (g_halves g)) <$> kept) ++ after max_grps n 0%Z 1%Z)
    (((λ g, target_f (g_full g)) <$> kept) ++ after max_grps n 0%Z 1%Z)
    (((λ g, target_d (g_dias g)) <$> kept) ++ after max_grps n eos_row pad_row)
    (length kept).

(** The tie-break chain of [_decode_grp] restores two diacritics in the
    order they were written exactly when the pair is in the order of the
    chain: nukta first; else anusvara last; else visarga last. *)
Definition NUKTA : N := 0x93C%N.
Definition ANUSVARA : N := 0x902%N.
Definition VISARGA : N := 0x903%N.
Definition canonical (ds : dias) : bool :=
  match ds with
  | TwoDias a b =>
      if (a =? NUKTA)%N then true
      else if (b =? NUKTA)%N then false
      else if (a =? ANUSVARA)%N then false
      else if (b =? ANUSVARA)%N then true
      else if (a =? VISARGA)%N then false
      else (b =? VISARGA)%N
  | _ => true
  end.

(** No character of the tables is the bracket the sentinels start with. *)
Definition BRACKET : N := 0x5B%N.
Definition not_bracket (c : N) : bool := negb (c =? BRACKET)%N.

(** The groups [label_transform] returns. *)
Definition accepted (g : group) : Prop := well_formed g = true ∧ valid g = true.

(** The encoding position by position, and the decoding loop run over
    such positions. *)
Definition slot : Type := Z * Z * Z * list Z.
Definition slots (max_grps : nat) (gs : list group) : list slot :=
  (target <$> take max_grps gs)
  ++ after max_grps (length gs) (0%Z, 0%Z, 0%Z, eos_row) (1%Z, 1%Z, 1%Z, pad_row).
Definition slot_h2 (t : slot) : Z := t.1.1.1.
Definition slot_h1 (t : slot) : Z := t.1.1.2.
Definition slot_f (t : slot) : Z := t.1.2.
Definition slot_d (t : slot) : list Z := t.2.

Definition decode_slot (topk2 : list Z → list Z * list nat) (t : slot)
  : result str :=
  _decode_grp (Z.to_nat (slot_h2 t)) (Z.to_nat (slot_h1 t)) (Z.to_nat (slot_f t))
    (topk2 (slot_d t)).2 (topk2 (slot_d t)).1.

Fixpoint decode_slots (topk2 : list Z → list Z * list nat) (ts : list slot)
  (label : str) : result str :=
  match ts with
  | [] => Ok label
  | t :: ts' =>
      grp ← decode_slot topk2 t;
      if contains EOS grp then Ok label
      else decode_slots topk2 ts' (label ++ grp)
  end.

(** What the decoder needs of a position: class indices inside the
    tables and a binary diacritic row of the table's width. *)
Definition slot_ok (t : slot) : Prop :=
  Z.to_nat (slot_h2 t) < length h_c_classes ∧
  Z.to_nat (slot_h1 t) < length h_c_classes ∧
  Z.to_nat (slot_f t) < length f_c_classes ∧
  length (slot_d t) = length d_classes ∧
  Forall (λ x, x = 0%Z ∨ x = 1%Z) (slot_d t).

(** A group, as a string, whose last two characters are not two
    diacritics out of the order of the tie-break chain. *)
Definition tie_break_order (grp : str) : bool :=
  match reverse grp with
  | b :: a :: _ => if is_d a && is_d b then canonical (TwoDias a b) else true
  | _ => true
  end.

(** The three tests of the scan, on the rest of the label. *)
Definition check_h (s : str) : bool :=
  match s with
  | c :: h :: _ => is_h c && str_eqb [h] halanth
  | _ => false
  end.
Definition check_f (s : str) : bool :=
  match s with
  | c :: rest =>
      is_f c && match rest with
                | [] => true
                | h :: _ => negb (str_eqb [h] halanth)
                end
  | [] => false
  end.
Definition check_d (s : str) : bool :=
  match s with
  | c :: _ => is_d c
  | [] => false
  end.

(** The group at the head of [s] and what follows it. *)
Definition parse_halves (s : str) : halves * str :=
  match s with
  | c1 :: _ :: s1 =>
      if check_h s then
        match s1 with
        | c2 :: _ :: s2 => if check_h s1 then (TwoHalves c1 c2, s2) else (OneHalf c1, s1)
        | _ => (OneHalf c1, s1)
        end
      else (NoHalf, s)
  | _ => (NoHalf, s)
  end.
Definition parse_full (s : str) : option N * str :=
  match s with
  | c :: s1 => if check_f s then (Some c, s1) else (None, s)
  | [] => (None, s)
  end.
Definition parse_dias (s : str) : dias * str :=
  match s with
  | d1 :: s1 =>
      if check_d s then
        match s1 with
        | d2 :: s2 => if check_d s1 then (TwoDias d1 d2, s2) else (OneDia d1, s1)
        | [] => (OneDia d1, s1)
        end
      else (NoDia, s)
  | [] => (NoDia, s)
  end.
Definition parse (s : str) : group * str :=
  let '(hs, s1) := parse_halves s in
  let '(f, s2) := parse_full s1 in
  let '(ds, s3) := parse_dias s2 in
  (Group hs f ds, s3).

(** The diacritics [_decode_grp] gives back for the diacritics of a
    group: the same when they are in the order of the tie-break chain,
    otherwise the two exchanged or one of them alone. *)
Definition decoded_dias (ds ds' : dias) : Prop :=
  if canonical ds then ds' = ds
  else match ds with
       | TwoDias d1 d2 => ds' = TwoDias d2 d1 ∨ ds' = OneDia d1 ∨ ds' = OneDia d2
       | _ => False
       end.
Definition decoded_group (g g' : group) : Prop :=
  accepted g ∧ accepted g' ∧ g_halves g' = g_halves g ∧ g_full g' = g_full g ∧
  decoded_dias (g_dias g) (g_dias g').

(** What may follow a group: nothing, or a character that is neither
    a diacritic nor the halant. *)
Definition group_start (s : str) : bool :=
  match s with
  | [] => true
  | c :: _ => negb (is_d c) && negb (c =? HAL)%N
  end.

(** The positions the scan loop of [label_transform] visits. *)
Inductive scan_position (label : str) : nat → Prop :=
| scan_start : scan_position label 0
| scan_next idx :
    scan_position label idx →
    idx < length label →
    (scan_group label idx).1 ≠ idx →
    scan_position label (scan_group label idx).1.

End Grammar.

(** ** What the Malayalam tables say about a diacritic *)

Module MalayalamFacts.
Import Malayalam.

Definition is_chillu (c : N) : bool := bool_decide (([c] : str) ∈ chillaksharam).
Definition d_facts (c : N) : bool :=
  negb (c =? 0xD4D)%N && negb (mem [c] rev_h_c_label_map) && negb (is_chillu c).

(** A diacritic is no full character either, a digit or punctuation mark
    is a full character and no chillaksharam, and a consonant followed
    by the halant is a label of one accepted group. *)
Definition d_no_full (c : N) : bool := negb (mem [c] rev_f_c_label_map).
Definition mark_facts (c : N) : bool :=
  mem [c] rev_f_c_label_map && negb (is_chillu c).
Definition final_virama_ok (c : N) : bool :=
  match label_transform [c; 0xD4D%N] with
  | Ok [[c'; h]] => (c' =? c)%N && (h =? 0xD4D)%N
  | _ => false
  end.

End MalayalamFacts.
Import Grammar.

Section dictionaries.

Lemma mem_rev_dict (key : str) (cl : list str) :
  mem key (rev_dict cl) = true ↔ key ∈ cl.
Proof.
  unfold mem, rev_dict.
  rewrite bool_decide_eq_true, <-not_eq_None_Some.
  assert (∀ l : list (str * nat),
    (list_to_map l : gmap str nat) !! key = None ↔ key ∉ l.*1) as ->
    by (intros; symmetry; apply not_elem_of_list_to_map).
  rewrite fmap_reverse, fmap_imap.
  rewrite (imap_ext _ (const id)) by done.
  rewrite imap_const, list_fmap_id, elem_of_reverse.
  split; [apply dec_stable | auto].
Qed.

Lemma table_forall (cl : list str) (p : N → bool) (c : N) :
  forallb (λ s, match s with [c] => p c | _ => true end) cl = true →
  mem [c] (rev_dict cl) = true → p c = true.
Proof.
  intros Hall Hmem. apply mem_rev_dict in Hmem.
  rewrite forallb_forall in Hall.
  apply list_elem_of_In in Hmem. exact (Hall _ Hmem).
Qed.

End dictionaries.

Lemma h_table c : is_h c = true → h_facts c = true.
Proof. apply table_forall. vm_compute. reflexivity. Qed.

Lemma f_table c : is_f c = true → f_facts c = true.
Proof. apply table_forall. vm_compute. reflexivity. Qed.

Lemma d_table c : is_d c = true → d_facts c = true.
Proof. apply table_forall. vm_compute. reflexivity. Qed.

Lemma lookup_ok_spec rev classes lo c :
  lookup_ok rev classes lo c = true →
  rev !! ([c] : str) = Some (default 0 (rev !! ([c] : str))) ∧
  lo ≤ default 0 (rev !! ([c] : str)) < length classes ∧
  classes !! default 0 (rev !! ([c] : str)) = Some [c].
Proof.
  unfold lookup_ok. destruct (rev !! ([c] : str)) as [k|]; [|done].
  rewrite !andb_true_iff, Nat.leb_le, Nat.ltb_lt, bool_decide_eq_true.
  cbn. intuition lia.
Qed.

Lemma is_h_facts c :
  is_h c = true → is_f c = true ∧ is_d c = false ∧ c ≠ HAL.
Proof.
  intros Hc%h_table. unfold h_facts in Hc.
  rewrite !andb_true_iff, !negb_true_iff, N.eqb_neq in Hc. tauto.
Qed.

Lemma is_f_facts c : is_f c = true → is_d c = false ∧ c ≠ HAL.
Proof.
  intros Hc%f_table. unfold f_facts in Hc.
  rewrite !andb_true_iff, !negb_true_iff, N.eqb_neq in Hc. tauto.
Qed.

Lemma is_d_facts c :
  is_d c = true → is_h c = false ∧ is_f c = false ∧ c ≠ HAL.
Proof.
  intros Hc%d_table. unfold d_facts in Hc.
  rewrite !andb_true_iff, !negb_true_iff, N.eqb_neq in Hc. tauto.
Qed.

Lemma HAL_facts : is_h HAL = false ∧ is_f HAL = false ∧ is_d HAL = false.
Proof. vm_compute. done. Qed.

Lemma is_h_lookup c :
  is_h c = true →
  Hindi.rev_h_c_label_map !! ([c] : str) = Some (idx_h c) ∧
  3 ≤ idx_h c < length Hindi.h_c_classes ∧
  Hindi.h_c_label_map (idx_h c) = Some [c].
Proof.
  intros Hc%h_table. unfold h_facts in Hc.
  rewrite !andb_true_iff in Hc. destruct Hc as [_ Hc].
  exact (lookup_ok_spec _ _ _ _ Hc).
Qed.

Lemma is_f_lookup c :
  is_f c = true →
  Hindi.rev_f_c_label_map !! ([c] : str) = Some (idx_f c) ∧
  2 ≤ idx_f c < length Hindi.f_c_classes ∧
  Hindi.f_c_label_map (idx_f c) = Some [c].
Proof.
  intros Hc%f_table. unfold f_facts in Hc.
  rewrite !andb_true_iff in Hc. destruct Hc as [_ Hc].
  exact (lookup_ok_spec _ _ _ _ Hc).
Qed.

Lemma is_d_lookup c :
  is_d c = true →
  Hindi.rev_d_label_map !! ([c] : str) = Some (idx_d c) ∧
  2 ≤ idx_d c < length Hindi.d_classes ∧
  Hindi.d_c_label_map (idx_d c) = Some [c].
Proof.
  intros Hc%d_table. unfold d_facts in Hc.
  rewrite !andb_true_iff in Hc. destruct Hc as [_ Hc].
  exact (lookup_ok_spec _ _ _ _ Hc).
Qed.

Lemma f_no_bracket c : is_f c = true → c ≠ BRACKET.
Proof.
  intros Hc. apply N.eqb_neq, negb_true_iff.
  revert Hc. apply (table_forall _ not_bracket). vm_compute. reflexivity.
Qed.

Lemma d_no_bracket c : is_d c = true → c ≠ BRACKET.
Proof.
  intros Hc. apply N.eqb_neq, negb_true_iff.
  revert Hc. apply (table_forall _ not_bracket). vm_compute. reflexivity.
Qed.

Opaque idx_h idx_f idx_d.

(** ** The scan, step by step *)

Arguments mem : simpl never.
Arguments str_eqb : simpl never.
Arguments is_h : simpl never.
Arguments is_f : simpl never.
Arguments is_d : simpl never.

Ltac bool_tidy :=
  unfold is_h, is_f, is_d;
  rewrite ?take_0, ?andb_true_l, ?andb_true_r, ?orb_true_l, ?orb_false_l;
  reflexivity.

Lemma str_eqb_HAL : str_eqb [HAL] Hindi.halanth = true.
Proof. vm_compute. reflexivity. Qed.

Lemma str_eqb_halanth c : str_eqb [c] Hindi.halanth = true → c = HAL.
Proof.
  unfold str_eqb. rewrite bool_decide_eq_true. intros Heq. injection Heq as ->. reflexivity.
Qed.

Lemma str_eqb_char a b : str_eqb [a] [b] = (a =? b)%N.
Proof.
  unfold str_eqb. destruct (N.eqb_spec a b) as [->|Hne].
  - by rewrite bool_decide_true.
  - rewrite bool_decide_false; [done|]. intros [= ?]. done.
Qed.

Lemma str_eqb_length (a b : str) : length a ≠ length b → str_eqb a b = false.
Proof. intros. apply bool_decide_false. congruence. Qed.

Lemma str_eqb_refl (a : str) : str_eqb a a = true.
Proof. by apply bool_decide_true. Qed.

Lemma halanth_eq : Hindi.halanth = [HAL].
Proof. reflexivity. Qed.

Lemma is_h_fold c : mem [c] Hindi.rev_h_c_label_map = is_h c.
Proof. reflexivity. Qed.
Lemma is_f_fold c : mem [c] Hindi.rev_f_c_label_map = is_f c.
Proof. reflexivity. Qed.
Lemma is_d_fold c : mem [c] Hindi.rev_d_label_map = is_d c.
Proof. reflexivity. Qed.

Opaque mem str_eqb Hindi.rev_h_c_label_map Hindi.rev_f_c_label_map Hindi.rev_d_label_map.

Ltac split_checks :=
  repeat match goal with
    | H : false = false |- _ => clear H
    | H : true = true |- _ => clear H
    | H : _ && _ = true |- _ => apply andb_true_iff in H as [? ?]
    | H : str_eqb [?c] Hindi.halanth = true |- _ =>
        apply str_eqb_halanth in H; subst c
    end.

Section scan_checks.
Import Hindi.

Lemma lt_length_drop (label : str) i k :
  i + k < length label ↔ k < length (drop i label).
Proof. rewrite length_drop. lia. Qed.

Lemma getitem_drop (label : str) i k :
  getitem label (i + k) = getitem (drop i label) k.
Proof. unfold getitem. by rewrite drop_drop. Qed.

Lemma lt_length_drop0 (label : str) i :
  i < length label ↔ 0 < length (drop i label).
Proof. rewrite length_drop. lia. Qed.

Lemma getitem_drop0 (label : str) i : getitem label i = getitem (drop i label) 0.
Proof. done. Qed.

Lemma getitem_cons_0 c (s : str) : getitem (c :: s) 0 = [c].
Proof. done. Qed.

Lemma check_h_c_drop label i : _check_h_c label i = check_h (drop i label).
Proof.
  unfold _check_h_c.
  rewrite (getitem_drop label i 1), (getitem_drop0 label i).
  rewrite (bool_decide_ext _ _ (lt_length_drop0 label i)).
  rewrite (bool_decide_ext _ _ (lt_length_drop label i 1)).
  destruct (drop i label) as [|c [|h s]]; cbn [length getitem drop take check_h].
  - rewrite (bool_decide_false (0 < 0)) by lia. reflexivity.
  - rewrite (bool_decide_false (1 < 1)) by lia.
    rewrite andb_false_r. reflexivity.
  - rewrite !bool_decide_true by lia. bool_tidy.
Qed.

Lemma check_f_c_drop label i : _check_f_c label i = check_f (drop i label).
Proof.
  unfold _check_f_c.
  rewrite (getitem_drop label i 1), (getitem_drop0 label i).
  rewrite (bool_decide_ext _ _ (lt_length_drop0 label i)).
  rewrite (bool_decide_ext (length label ≤ i + 1) (length (drop i label) ≤ 1))
    by (rewrite length_drop; lia).
  destruct (drop i label) as [|c [|h s]]; cbn [length getitem drop take check_f].
  - rewrite (bool_decide_false (0 < 0)) by lia. reflexivity.
  - rewrite !bool_decide_true by lia. bool_tidy.
  - rewrite bool_decide_true by lia.
    rewrite (bool_decide_false (S (S _) ≤ 1)) by lia. bool_tidy.
Qed.

Lemma check_d_c_drop label i : _check_d_c label i = check_d (drop i label).
Proof.
  unfold _check_d_c.
  rewrite (getitem_drop0 label i).
  rewrite (bool_decide_ext _ _ (lt_length_drop0 label i)).
  destruct (drop i label) as [|c s]; cbn [length getitem drop take check_d].
  - rewrite (bool_decide_false (0 < 0)) by lia. reflexivity.
  - rewrite bool_decide_true by lia. bool_tidy.
Qed.

Opaque is_h is_f is_d.

Lemma slice_drop (label : str) i k : slice label i (i + k) = take k (drop i label).
Proof. unfold slice. f_equal. lia. Qed.

(** One step of the scan reads the group that [parse] finds at the
    head of the rest of the label. *)
Lemma scan_group_parse label i :
  scan_group label i =
  (i + length (render (parse (drop i label)).1), render (parse (drop i label)).1).
Proof.
  unfold scan_group.
  repeat (rewrite ?check_h_c_drop, ?check_f_c_drop, ?check_d_c_drop;
          match goal with
          | |- context [if ?b then _ else _] => destruct b eqn:?
          end; cbn beta iota zeta).
  all: rewrite ?slice_drop; unfold getitem.
  all: rewrite <-?drop_drop in *.
  all: generalize dependent label; intros label; generalize (drop i label); clear label; intros s.
  all: intros.
  all: destruct s as [|c1 [|c2 [|c3 [|c4 [|c5 [|c6 [|c7 s]]]]]]].
  all: cbn [check_h check_f check_d drop take] in *.
  all: try match goal with H : false = true |- _ => discriminate H end.
  all: split_checks.
  all: unfold parse, parse_halves, parse_full, parse_dias.
  all: repeat first
    [ progress cbn [check_h check_f check_d andb negb]
    | progress rewrite ?str_eqb_HAL
    | match goal with
      | H : _ = true |- _ => progress rewrite H
      | H : _ = false |- _ => progress rewrite H
      end
    | progress cbn beta iota zeta ].
  all: cbn [fst snd render render_halves render_full render_dias
            g_halves g_full g_dias app length].
  all: rewrite ?take_0; f_equal; lia.
Qed.

(** [parse] splits its input and only builds well-formed groups. *)
Lemma parse_spec s :
  s = render (parse s).1 ++ (parse s).2 ∧ well_formed (parse s).1 = true.
Proof.
  unfold parse, parse_halves, parse_full, parse_dias.
  destruct s as [|c1 [|c2 [|c3 [|c4 [|c5 [|c6 [|c7 s]]]]]]].
  all: repeat first
    [ progress cbn [check_h check_f check_d]
    | progress cbn beta iota zeta
    | match goal with
      | |- context [if ?b then _ else _] => destruct b eqn:?
      end ].
  all: split_checks.
  all: unfold well_formed, render.
  all: cbn [fst snd render_halves render_full render_dias
            g_halves g_full g_dias app halves_ok full_ok dias_ok].
  all: repeat match goal with H : _ = true |- _ => rewrite H; clear H end.
  all: split; reflexivity.
Qed.

Lemma scan_step_eq label idx grps :
  scan label idx grps =
  if decide (idx < length label) then
    if decide (idx = (scan_group label idx).1) then None
    else scan label (scan_group label idx).1 (grps ++ [(scan_group label idx).2])
  else Some grps.
Proof.
  simp scan. destruct (decide (idx < length label)); simpl; [|done].
  destruct (decide (idx = _)); simpl; [done|]. by simp scan.
Qed.

(** What the scan returns: the groups found so far, followed by
    non-empty well-formed groups that spell the rest of the label. *)
Lemma scan_spec n : ∀ label idx acc grps,
  length label - idx ≤ n →
  scan label idx acc = Some grps →
  ∃ new, grps = acc ++ new ∧ concat new = drop idx label ∧
         Forall (λ g, g ≠ [] ∧ ∃ grp, well_formed grp = true ∧ g = render grp) new.
Proof.
  induction n as [|n IH]; intros label idx acc grps Hn; rewrite scan_step_eq.
  - destruct (decide (idx < length label)); [lia|].
    intros [= <-]. exists []. rewrite app_nil_r, drop_ge by lia. done.
  - destruct (decide (idx < length label)) as [Hlt|Hge].
    + rewrite scan_group_parse. cbn [fst snd].
      destruct (parse_spec (drop idx label)) as [Hsplit Hwf].
      set (g := render (parse (drop idx label)).1) in *.
      destruct (decide (idx = idx + length g)) as [|Hne]; [done|].
      intros Hscan. apply IH in Hscan as (new & -> & Hcat & Hall).
      * exists (g :: new). split; [by rewrite <-app_assoc|]. split.
        -- cbn [concat]. rewrite Hcat, <-drop_drop.
           assert (drop (length g) (drop idx label) = (parse (drop idx label)).2)
             as -> by (rewrite Hsplit at 1; apply drop_app_length).
           by rewrite <-Hsplit.
        -- constructor; [|done]. split.
           ++ intros Hg. rewrite Hg in Hne. cbn in Hne. lia.
           ++ by eexists.
      * assert (length g ≠ 0) by lia. lia.
    + intros [= <-]. exists []. rewrite app_nil_r, drop_ge by lia. done.
Qed.

Lemma scan_concat label grps : scan label 0 [] = Some grps → concat grps = label.
Proof.
  intros Hs. apply (scan_spec (length label)) in Hs as (new & -> & Hcat & _); [|lia].
  by rewrite app_nil_l, Hcat.
Qed.

End scan_checks.

(** ** The validator on the groups of the scan *)

Lemma neq_eqb_l (a b : N) : a ≠ b → (a =? b)%N = false.
Proof. apply N.eqb_neq. Qed.
Lemma neq_eqb_r (a b : N) : a ≠ b → (b =? a)%N = false.
Proof. intros. apply N.eqb_neq. congruence. Qed.

(** Everything the tables say about a character of a known class. *)
Ltac class_facts :=
  repeat match goal with
    | H : is_h ?c = true |- _ =>
        lazymatch goal with
        | _ : is_f c = true |- _ => fail
        | _ =>
            let Hf := fresh in let Hd := fresh in let Hn := fresh in
            destruct (is_h_facts c H) as (Hf & Hd & Hn);
            pose proof (neq_eqb_l _ _ Hn); pose proof (neq_eqb_r _ _ Hn); clear Hn
        end
    | H : is_f ?c = true |- _ =>
        lazymatch goal with
        | _ : is_d c = false |- _ => fail
        | _ =>
            let Hd := fresh in let Hn := fresh in
            destruct (is_f_facts c H) as (Hd & Hn);
            pose proof (neq_eqb_l _ _ Hn); pose proof (neq_eqb_r _ _ Hn); clear Hn
        end
    | H : is_d ?c = true |- _ =>
        lazymatch goal with
        | _ : is_f c = false |- _ => fail
        | _ =>
            let Hh := fresh in let Hf := fresh in let Hn := fresh in
            destruct (is_d_facts c H) as (Hh & Hf & Hn);
            pose proof (neq_eqb_l _ _ Hn); pose proof (neq_eqb_r _ _ Hn); clear Hn
        end
    end.

(** Decide the comparisons of numbers that a symbolic run leaves. *)
Ltac decide_tests :=
  repeat match goal with
    | |- context [bool_decide ?P] =>
        first [ rewrite (bool_decide_true P) by (cbn; unfold Hindi.blank_id; lia)
              | rewrite (bool_decide_false P) by (cbn; unfold Hindi.blank_id; lia) ]
    end.

Ltac rewrite_bools :=
  repeat match goal with
    | H : _ = true |- _ => progress rewrite H
    | H : _ = false |- _ => progress rewrite H
    end.

Section sanity_unfold.
Import Hindi.

Lemma sanity_walk_step_eq grp i st :
  sanity_walk grp i st =
  if decide (i < length grp) then
    match sanity_branch grp i st with
    | BHalf => sanity_walk grp (i + 2)
                (Counts (h_c_count st - 1) (f_c_count st) (d_c_count st) (d_seen st))
    | BFull => sanity_walk grp (i + 1)
                (Counts (h_c_count st) (f_c_count st - 1) (d_c_count st) (d_seen st))
    | BFirstDia => sanity_walk grp (i + 1)
                (Counts (h_c_count st) (f_c_count st) (d_c_count st - 1)
                   (d_seen st ++ [getitem grp i]))
    | BNextDia => sanity_walk grp (i + 1)
                (Counts (h_c_count st) (f_c_count st) (d_c_count st - 1) (d_seen st))
    | BDuplicate => None
    | BOther => sanity_walk grp (i + 1) st
    end
  else Some st.
Proof.
  simp sanity_walk. destruct (decide (i < length grp)); simpl; [|done].
  destruct (sanity_branch grp i st); simpl; try done; by simp sanity_walk.
Qed.

Lemma mem_singleton_str (a b : N) :
  bool_decide ([a] ∈ [[b]]) = (a =? b)%N.
Proof.
  destruct (N.eqb_spec a b) as [->|Hne].
  - apply bool_decide_true. apply list_elem_of_singleton. done.
  - apply bool_decide_false. rewrite list_elem_of_singleton. intros [= ?]. done.
Qed.

End sanity_unfold.

Ltac walk_step :=
  rewrite sanity_walk_step_eq;
  cbn [length];
  match goal with
  | |- context [decide (?a < ?b)] =>
      destruct (decide (a < b)) as [_|?]; [|lia]
  | |- context [decide (?a < ?b)] =>
      destruct (decide (a < b)) as [?|_]; [lia|]
  end;
  try (unfold Hindi.sanity_branch;
       cbn [getitem drop take length Nat.add app
            Hindi.h_c_count Hindi.f_c_count Hindi.d_c_count Hindi.d_seen Hindi.counts0];
       rewrite ?halanth_eq, ?str_eqb_char, ?is_h_fold, ?is_f_fold, ?is_d_fold,
         ?mem_singleton_str, ?N.eqb_refl;
       decide_tests;
       rewrite_bools;
       cbn [andb negb]).

Section sanity.
Import Hindi.

Lemma grp_ok_render grp :
  well_formed grp = true → grp_ok (render grp) = valid grp.
Proof.
  destruct grp as [[|c|c1 c2] [f|] [|d|d1 d2]].
  all: unfold well_formed, valid, render.
  all: cbn [g_halves g_full g_dias halves_ok full_ok dias_ok dias_distinct
            render_halves render_full render_dias app andb].
  all: intros Hwf; split_checks; class_facts.
  all: try (destruct (N.eqb_spec d1 d2) as [->|Hne];
            [|pose proof (neq_eqb_l _ _ Hne); pose proof (neq_eqb_r _ _ Hne)]).
  all: unfold grp_ok.
  all: repeat walk_step.
  all: unfold no_full; cbn [h_c_count f_c_count d_c_count d_seen].
  all: decide_tests; reflexivity.
Qed.

End sanity.

(** ** Segmentation *)

Section segmentation.
Import Hindi.

Lemma scan_position_resumes label idx :
  scan_position label idx → ∃ acc, scan label 0 [] = scan label idx acc.
Proof.
  induction 1 as [|idx Hpos IH Hlt Hne]; [by exists []|].
  destruct IH as [acc IH].
  exists (acc ++ [(scan_group label idx).2]).
  rewrite IH, (scan_step_eq label idx).
  destruct (decide (idx < length label)); [|lia].
  destruct (decide (idx = (scan_group label idx).1)); [congruence|done].
Qed.

Lemma label_transform_cases label :
  label_transform label = [] ∨ concat (label_transform label) = label.
Proof.
  unfold label_transform.
  destruct (scan label 0 []) as [grps|] eqn:Hs; [|by left].
  destruct (grp_sanity label grps); [|by left].
  right. by apply scan_concat.
Qed.

Lemma label_transform_nil : label_transform [] = [].
Proof. vm_compute. reflexivity. Qed.

End segmentation.

(** C6.  If a step of the Hindi scan consumes no character at a position
    the scan reaches, the scan stops there with the empty result, whatever
    groups it had collected, and [label_transform] returns the empty tuple
    for the whole label.  No character is skipped: the groups of a scan
    that ends spell the label. *)
Theorem scan_stuck_rejects_label (label : str) :
  (∀ idx, Grammar.scan_position label idx → idx < length label →
          (Hindi.scan_group label idx).1 = idx →
          (∀ acc, Hindi.scan label idx acc = None) ∧
          Hindi.label_transform label = []) ∧
  (∀ grps, Hindi.scan label 0 [] = Some grps → concat grps = label).
Proof.
  split; [|apply scan_concat].
  intros idx Hpos Hlt Hstuck.
  assert (∀ acc, Hindi.scan label idx acc = None) as Hnone.
  { intros acc. rewrite scan_step_eq.
    destruct (decide (idx < length label)); [|lia].
    destruct (decide (idx = (Hindi.scan_group label idx).1)); [done|congruence]. }
  split; [done|].
  destruct (scan_position_resumes label idx Hpos) as [acc Hacc].
  unfold Hindi.label_transform. by rewrite Hacc, Hnone.
Qed.

Lemma scan_stuck_rejects_label_witness :
  Hindi.label_transform [0x915; 0x94D; 0x94D]%N = [].
Proof.
  refine (proj2 (proj1 (scan_stuck_rejects_label [0x915; 0x94D; 0x94D]%N) 2 _ _ _)).
  - exact (Grammar.scan_next [0x915; 0x94D; 0x94D]%N 0
             (Grammar.scan_start _) ltac:(cbn; lia) ltac:(vm_compute; lia)).
  - cbn; lia.
  - vm_compute. reflexivity.
Defined.

(** C9.  Segmenting the concatenation of the groups [label_transform]
    returns gives the same groups again. *)
Theorem label_transform_idempotent (label : str) :
  Hindi.label_transform (concat (Hindi.label_transform label))
  = Hindi.label_transform label.
Proof.
  destruct (label_transform_cases label) as [Hnil|Hcat].
  - rewrite Hnil. apply label_transform_nil.
  - by rewrite Hcat.
Qed.

(** C4.  [grp_sanity] lets a group through in which a diacritic occurs
    twice after a different first diacritic (क ा ि ि): only the first
    diacritic of a group is remembered in [d_seen].  The encoder rejects
    the same group with its "2 same matras" assertion. *)
Example grp_sanity_misses_repeated_diacritic :
  Hindi.grp_sanity [0x915; 0x93E; 0x93F; 0x93F]%N
    [[0x915; 0x93E; 0x93F; 0x93F]%N] = true ∧
  Hindi.grp_class_encoder [0x915; 0x93E; 0x93F; 0x93F]%N = Raise AssertionError.
Proof. vm_compute. done. Qed.

(** C5.  [grp_sanity] lets a group with three half-characters through
    (क ् क ् क ् क): the branch that reports the ill-formed group does not
    return.  The encoder rejects the same group ("More than 2
    half-characters occured"). *)
Example grp_sanity_misses_third_half_character :
  Hindi.grp_sanity [0x915; 0x94D; 0x915; 0x94D; 0x915; 0x94D; 0x915]%N
    [[0x915; 0x94D; 0x915; 0x94D; 0x915; 0x94D; 0x915]%N] = true ∧
  Hindi.grp_class_encoder [0x915; 0x94D; 0x915; 0x94D; 0x915; 0x94D; 0x915]%N
  = Raise Exception.
Proof. vm_compute. done. Qed.

(** C8.  With the two diacritics ा (class 2) and ँ (class 14) active on
    the full character म (class 26), [_decode_grp] emits only the one
    [topk] lists first and drops the other: neither is nukta, anusvara or
    visarga, so the chain ends in [d = d1]. *)
Example decode_grp_drops_second_diacritic :
  Hindi._decode_grp 2 2 26 [2; 14] [1; 1]%Z = Ok [0x92E; 0x93E]%N ∧
  Hindi._decode_grp 2 2 26 [14; 2] [1; 1]%Z = Ok [0x92E; 0x901]%N.
Proof. vm_compute. done. Qed.

(** C1.  The round trip fails on the label म ा ँ.  [label_transform]
    accepts it as one group, well within [max_grps = 25], and
    [label_encoder] sets the bits of both diacritics (classes 2 and 14);
    [decode] of the exact logits of that encoding returns म ा or म ँ,
    according to the order the top-2 selection gives to the two equal
    values, and never the label: neither diacritic is nukta, anusvara or
    visarga, so the chain of [_decode_grp] ends in [d = d1]. *)
Example round_trip_drops_a_diacritic :
  Hindi.label_transform [0x92E; 0x93E; 0x901]%N = [[0x92E; 0x93E; 0x901]%N] ∧
  (e ← Hindi.label_encoder 25 [0x92E; 0x93E; 0x901]%N;
   Ok (Hindi.enc_d e !! 0))
  = Ok (Some (<[14 := 1%Z]> (<[2 := 1%Z]> (replicate 18 0%Z)))) ∧
  (e ← Hindi.label_encoder 25 [0x92E; 0x93E; 0x901]%N;
   Hindi.decode Hindi.active_half Hindi.topk2_first 25 (Hindi.exact_logits e))
  = Ok [[0x92E; 0x93E]%N] ∧
  (e ← Hindi.label_encoder 25 [0x92E; 0x93E; 0x901]%N;
   Hindi.decode Hindi.active_half Hindi.topk2_last 25 (Hindi.exact_logits e))
  = Ok [[0x92E; 0x901]%N].
Proof. vm_compute. done. Qed.

(** C7, counterexample.  The Hindi validator accepts the group क क ्,
    which ends in a halant that no consonant follows. *)
Lemma hindi_accepts_trailing_halant :
  Hindi.grp_sanity [0x915; 0x915; 0x94D]%N [[0x915; 0x915; 0x94D]%N] = true.
Proof. vm_compute. reflexivity. Qed.

(** ** [grp_class_encoder] on validated groups *)

Section encoder_steps.
Import Hindi.

Lemma foldM_cons {A S} (f : S → A → result S) s a l :
  foldM f s (a :: l) = (s' ← f s a; foldM f s' l).
Proof. reflexivity. Qed.

Lemma bind_Ok {A B} (a : A) (k : A → result B) : (x ← Ok a; k x) = k a.
Proof. reflexivity. Qed.

Lemma encode_half g st i c :
  is_h c = true → i + 1 < length g → getitem g (i + 1) = [HAL] →
  encode_char g st (i, [c]) =
  Ok (EncState
        (if bool_decide (h_c_1_target st = Z.of_nat blank_id)
         then h_c_2_target st else h_c_1_target st)
        (Z.of_nat (idx_h c)) (f_c_target st) (d_target st) (halanth_cntr st)).
Proof.
  intros Hc Hlt Hnext. destruct (is_h_lookup c Hc) as (Hk & _ & _).
  unfold encode_char, class_of. cbn beta iota.
  rewrite is_h_fold, Hc, Hnext, halanth_eq, str_eqb_char, N.eqb_refl, Hk.
  rewrite bool_decide_true by done. cbn [andb of_option].
  rewrite bind_Ok. by destruct (bool_decide _).
Qed.

Lemma encode_halanth g st i :
  halanth_cntr st < 2 →
  encode_char g st (i, [HAL]) =
  Ok (EncState (h_c_2_target st) (h_c_1_target st) (f_c_target st)
        (d_target st) (halanth_cntr st + 1)).
Proof.
  intros Hlt. destruct HAL_facts as (Hh & Hf & Hd).
  unfold encode_char. cbn beta iota.
  rewrite is_h_fold, is_f_fold, is_d_fold, Hh, Hf, Hd.
  rewrite halanth_eq, !str_eqb_char, N.eqb_refl.
  rewrite (bool_decide_true (halanth_cntr st < 2)) by done.
  cbn [andb]. reflexivity.
Qed.

Lemma encode_full g st i c :
  is_f c = true →
  (length g ≤ i + 1 ∨ ∃ x, getitem g (i + 1) = [x] ∧ x ≠ HAL) →
  f_c_target st = (-1)%Z →
  encode_char g st (i, [c]) =
  Ok (EncState (h_c_2_target st) (h_c_1_target st) (Z.of_nat (idx_f c))
        (d_target st) (halanth_cntr st)).
Proof.
  intros Hc Hnext Hf. destruct (is_f_lookup c Hc) as (Hk & _ & _).
  unfold encode_char, class_of. cbn beta iota.
  rewrite is_h_fold, is_f_fold, Hc, Hk, Hf.
  assert (is_h c && bool_decide (i + 1 < length g)
          && str_eqb (getitem g (i + 1)) halanth = false) as ->.
  { destruct Hnext as [Hlen|(x & -> & Hx)].
    - rewrite (bool_decide_false (i + 1 < length g)) by lia.
      by rewrite andb_false_r.
    - rewrite halanth_eq, str_eqb_char, (neq_eqb_l _ _ Hx).
      by rewrite andb_false_r. }
  rewrite (bool_decide_true (_ = _)) by done. reflexivity.
Qed.

Lemma encode_dia g st i c :
  is_d c = true → d_target st !! idx_d c = Some 0%Z →
  encode_char g st (i, [c]) =
  Ok (EncState (h_c_2_target st) (h_c_1_target st) (f_c_target st)
        (<[idx_d c := 1%Z]> (d_target st)) (halanth_cntr st)).
Proof.
  intros Hc Hz. destruct (is_d_lookup c Hc) as (Hk & _ & _).
  destruct (is_d_facts c Hc) as (Hh & Hf & _).
  unfold encode_char, class_of. cbn beta iota.
  rewrite is_h_fold, is_f_fold, is_d_fold, Hh, Hf, Hc, Hk.
  cbn [andb of_option]. rewrite bind_Ok, Hz. cbn [of_option]. rewrite bind_Ok.
  rewrite bool_decide_true by done. reflexivity.
Qed.

Lemma sum_list_replicate_0 n : sum_list (replicate n 0%Z) = 0%Z.
Proof.
  unfold sum_list. induction n as [|n IH]; [done|].
  cbn [replicate foldr]. rewrite IH. done.
Qed.

Lemma sum_list_insert (l : list Z) k x v :
  l !! k = Some x → sum_list (<[k:=v]> l) = (sum_list l - x + v)%Z.
Proof.
  unfold sum_list. revert k.
  induction l as [|y l IH]; intros [|k] Hk; try done.
  - simpl in Hk. injection Hk as ->. simpl. lia.
  - simpl in Hk. simpl. specialize (IH _ Hk). simpl in IH. lia.
Qed.

Lemma zeros_lookup k : k < length d_classes → zeros !! k = Some 0%Z.
Proof. intros. unfold zeros. by apply lookup_replicate_2. Qed.

Lemma idx_d_inj c1 c2 :
  is_d c1 = true → is_d c2 = true → idx_d c1 = idx_d c2 → c1 = c2.
Proof.
  intros H1 H2 Heq.
  destruct (is_d_lookup c1 H1) as (_ & _ & Hl1).
  destruct (is_d_lookup c2 H2) as (_ & _ & Hl2).
  rewrite Heq in Hl1. congruence.
Qed.

Lemma zeros_insert_lookup k1 k2 :
  k1 ≠ k2 → k2 < length d_classes → (<[k1:=1%Z]> zeros) !! k2 = Some 0%Z.
Proof.
  intros. rewrite list_lookup_insert_ne by done. by apply zeros_lookup.
Qed.

Lemma sum_target_d ds :
  dias_ok ds = true → dias_distinct ds = true → (sum_list (target_d ds) ≤ 2)%Z.
Proof.
  destruct ds as [|d|d1 d2]; cbn [dias_ok dias_distinct target_d]; intros Hok Hdis.
  - unfold zeros. rewrite sum_list_replicate_0. lia.
  - destruct (is_d_lookup d Hok) as (_ & [_ Hlt] & _).
    rewrite (sum_list_insert _ _ 0%Z) by by apply zeros_lookup.
    unfold zeros. rewrite sum_list_replicate_0. lia.
  - apply andb_true_iff in Hok as [H1 H2].
    destruct (is_d_lookup d1 H1) as (_ & [_ Hlt1] & _).
    destruct (is_d_lookup d2 H2) as (_ & [_ Hlt2] & _).
    apply negb_true_iff, N.eqb_neq in Hdis.
    assert (idx_d d1 ≠ idx_d d2) by (intros ?; by apply Hdis, idx_d_inj).
    rewrite (sum_list_insert _ _ 0%Z) by by apply zeros_insert_lookup.
    rewrite (sum_list_insert _ _ 0%Z) by by apply zeros_lookup.
    unfold zeros. rewrite sum_list_replicate_0. lia.
Qed.

End encoder_steps.

(** One character of a symbolic run of [grp_class_encoder]. *)
Ltac enc_step :=
  rewrite foldM_cons;
  first
    [ rewrite encode_half by first [ assumption | cbn [length]; lia | reflexivity ]
    | rewrite encode_halanth by (cbn [Hindi.halanth_cntr]; lia)
    | rewrite encode_full by
        first [ assumption
              | left; cbn [length]; lia
              | right; eexists; split; [reflexivity | assumption]
              | reflexivity ]
    | rewrite encode_dia by
        first [ assumption
              | apply zeros_lookup; lia
              | apply zeros_insert_lookup; [assumption | lia] ] ];
  rewrite bind_Ok;
  cbn [Hindi.h_c_2_target Hindi.h_c_1_target Hindi.f_c_target Hindi.d_target
       Hindi.halanth_cntr Nat.add];
  decide_tests.

(** The facts a symbolic run needs about the characters of a group. *)
Ltac group_facts :=
  repeat match goal with
    | H : is_h ?c = true |- _ =>
        lazymatch goal with
        | _ : 3 ≤ idx_h c |- _ => fail
        | _ => let Hl := fresh in
               destruct (is_h_lookup c H) as (_ & [Hl _] & _)
        end
    | H : is_f ?c = true |- _ =>
        lazymatch goal with
        | _ : 2 ≤ idx_f c |- _ => fail
        | _ => let Hl := fresh in
               destruct (is_f_lookup c H) as (_ & [Hl _] & _)
        end
    | H : is_d ?c = true |- _ =>
        lazymatch goal with
        | _ : c ≠ HAL |- _ => fail
        | _ => let Hl := fresh in let Hu := fresh in let Hn := fresh in
               destruct (is_d_lookup c H) as (_ & [Hl Hu] & _);
               destruct (is_d_facts c H) as (_ & _ & Hn)
        end
    end.

Section encoder.
Import Hindi.

Lemma grp_class_encoder_render grp :
  well_formed grp = true → valid grp = true →
  grp_class_encoder (render grp) = Ok (target grp).
Proof.
  destruct grp as [[|c|c1 c2] [f|] [|d|d1 d2]].
  all: unfold well_formed, valid, render, target.
  all: cbn [g_halves g_full g_dias halves_ok full_ok dias_ok dias_distinct
            render_halves render_full render_dias app andb
            target_h2 target_h1 target_f target_d].
  all: intros Hwf Hvalid; try discriminate Hvalid.
  all: split_checks; group_facts.
  all: try (apply negb_true_iff, N.eqb_neq in Hvalid;
            assert (idx_d d1 ≠ idx_d d2) by (intros ?; by apply Hvalid, idx_d_inj)).
  all: unfold grp_class_encoder, enumerate.
  all: cbn [imap compose].
  all: change (replicate (length d_classes) 0%Z) with zeros.
  all: repeat enc_step.
  all: cbn [foldM]; rewrite bind_Ok.
  all: cbn [h_c_2_target h_c_1_target f_c_target d_target].
  all: rewrite (bool_decide_false (_ = (-1)%Z)) by lia.
  all: cbn [negb assert]; rewrite bind_Ok.
  all: rewrite (bool_decide_true (sum_list _ ≤ 2)%Z);
    [cbn [assert]; rewrite bind_Ok; reflexivity|..].
  all: first [ apply (sum_target_d NoDia)
             | apply (sum_target_d (OneDia _))
             | apply (sum_target_d (TwoDias _ _)) ].
  all: cbn [dias_ok dias_distinct]; rewrite_bools; try reflexivity.
  all: by apply negb_true_iff, N.eqb_neq.
Qed.

End encoder.

(** ** [label_encoder] on every label *)

Section label_encoder.
Import Hindi.

Lemma grp_sanity_forall label grps :
  grp_sanity label grps = true → Forall (λ g, grp_ok g = true) grps.
Proof.
  induction grps as [|g grps IH]; cbn [grp_sanity]; [constructor|].
  destruct (grp_ok g) eqn:Hg; [|done]. intros H. constructor; auto.
Qed.

(** What [label_transform] returns is a sequence of accepted groups that
    spells the label, or nothing. *)
Lemma label_transform_groups label :
  ∃ gs, label_transform label = render <$> gs ∧ Forall accepted gs.
Proof.
  unfold label_transform.
  destruct (scan label 0 []) as [grps|] eqn:Hs; [|by exists []].
  destruct (grp_sanity label grps) eqn:Hok; [|by exists []].
  apply (scan_spec (length label)) in Hs as (new & -> & _ & Hall); [|lia].
  apply grp_sanity_forall in Hok. rewrite app_nil_l in *.
  clear label. induction new as [|g new IH]; [by exists []|].
  apply Forall_cons in Hall as [(_ & grp & Hwf & ->) Hall].
  apply Forall_cons in Hok as [Hg Hok].
  destruct (IH Hall Hok) as (gs & -> & Hgs).
  exists (grp :: gs). split; [done|]. constructor; [|done].
  split; [done|]. by rewrite <-grp_ok_render.
Qed.

Lemma overwrite_nil {A} k (l : list A) : overwrite k [] l = l.
Proof. unfold overwrite. cbn [length app]. by rewrite Nat.add_0_r, take_drop. Qed.

Lemma overwrite_insert {A} k v (vs l : list A) :
  k < length l → overwrite (S k) vs (<[k:=v]> l) = overwrite k (v :: vs) l.
Proof.
  intros Hk. unfold overwrite.
  rewrite (take_S_r _ _ v) by by apply list_lookup_insert_eq.
  rewrite take_insert_ge by lia. rewrite drop_insert_lt by lia.
  cbn [length]. rewrite <-app_assoc. cbn [app].
  replace (k + S (length vs)) with (S k + length vs) by lia. done.
Qed.

Lemma encode_row_render e i g :
  accepted g →
  encode_row e (i, render g) =
  Ok (Encoded (<[i := target_h2 (g_halves g)]> (enc_h_c_2 e))
        (<[i := target_h1 (g_halves g)]> (enc_h_c_1 e))
        (<[i := target_f (g_full g)]> (enc_f_c e))
        (<[i := target_d (g_dias g)]> (enc_d e)) (enc_len e)).
Proof.
  intros [Hwf Hv]. unfold encode_row.
  by rewrite (grp_class_encoder_render g Hwf Hv).
Qed.

Lemma foldM_encode_rows gs : ∀ k e,
  Forall accepted gs →
  k + length gs ≤ length (enc_h_c_2 e) →
  k + length gs ≤ length (enc_h_c_1 e) →
  k + length gs ≤ length (enc_f_c e) →
  k + length gs ≤ length (enc_d e) →
  foldM encode_row e (imap (λ i g, (k + i, g)) (render <$> gs)) =
  Ok (Encoded
        (overwrite k ((λ g, target_h2 (g_halves g)) <$> gs) (enc_h_c_2 e))
        (overwrite k ((λ g, target_h1 (g_halves g)) <$> gs) (enc_h_c_1 e))
        (overwrite k ((λ g, target_f (g_full g)) <$> gs) (enc_f_c e))
        (overwrite k ((λ g, target_d (g_dias g)) <$> gs) (enc_d e))
        (enc_len e)).
Proof.
  induction gs as [|g gs IH]; intros k e Hall H2 H1 Hf Hd.
  - cbn [fmap list_fmap imap foldM]. rewrite !overwrite_nil. by destruct e.
  - apply Forall_cons in Hall as [Hg Hall]. cbn [length] in *.
    rewrite fmap_cons, imap_cons, foldM_cons.
    rewrite (encode_row_render _ _ _ Hg), bind_Ok, Nat.add_0_r.
    rewrite (imap_ext _ (λ i g, (S k + i, g)))
      by (intros; cbn; f_equal; lia).
    rewrite IH; cbn [enc_h_c_2 enc_h_c_1 enc_f_c enc_d enc_len];
      rewrite ?length_insert; try lia; [|done].
    rewrite !fmap_cons, !overwrite_insert by lia. done.
Qed.

Lemma drop_insert_replicate {A} n m (x y : A) :
  n < m → drop n (<[n:=x]> (replicate m y)) = x :: replicate (m - n - 1) y.
Proof.
  intros. rewrite drop_insert_ge, Nat.sub_diag by lia.
  rewrite drop_replicate. destruct (m - n) as [|j] eqn:E; [lia|].
  simpl. rewrite Nat.sub_0_r. done.
Qed.

Lemma alter_replicate {A} (f : A → A) n m (y : A) :
  alter f n (replicate m y) = <[n := f y]> (replicate m y).
Proof.
  revert n. induction m as [|m IH]; intros [|n]; cbn; try done.
  f_equal. apply IH.
Qed.

Lemma overwrite_eos {A} (vals : list A) n m (x y : A) :
  length vals = n → n < m →
  overwrite 0 vals (<[n := x]> (replicate m y))
  = vals ++ x :: replicate (m - n - 1) y.
Proof.
  intros <- ?. unfold overwrite. cbn [take app Nat.add].
  by rewrite drop_insert_replicate.
Qed.

Lemma overwrite_full {A} (vals : list A) m (y : A) :
  length vals = m → overwrite 0 vals (replicate m y) = vals.
Proof.
  intros. unfold overwrite. cbn [take app Nat.add].
  rewrite drop_ge, app_nil_r; [done|]. rewrite length_replicate. lia.
Qed.

(** The encoder succeeds on every label, with the encoding [expected]
    describes. *)
Lemma label_encoder_spec max_grps label gs :
  label_transform label = render <$> gs → Forall accepted gs →
  label_encoder max_grps label = Ok (expected max_grps gs).
Proof.
  intros Hgs Hall. unfold label_encoder, expected, after.
  rewrite Hgs, length_fmap. cbn zeta.
  rewrite fmap_replicate.
  change (<[pad_id:=1%Z]> (replicate (length d_classes) 0%Z)) with pad_row.
  rewrite alter_replicate. change (<[eos_id:=1%Z]> pad_row) with eos_row.
  change (Z.of_nat pad_id) with 1%Z. change (Z.of_nat eos_id) with 0%Z.
  destruct (bool_decide (length gs < max_grps)) eqn:Hlt.
  - apply bool_decide_eq_true in Hlt.
    rewrite (foldM_encode_rows gs 0); cbn [enc_h_c_2 enc_h_c_1 enc_f_c enc_d enc_len];
      rewrite ?length_insert, ?length_replicate; try lia; [|done].
    rewrite bind_Ok. cbn [enc_h_c_2 enc_h_c_1 enc_f_c enc_d enc_len].
    rewrite take_ge by lia. rewrite length_fmap.
    rewrite !overwrite_eos by (by rewrite ?length_fmap). done.
  - apply bool_decide_eq_false in Hlt.
    rewrite <-fmap_take.
    rewrite (foldM_encode_rows (take max_grps gs) 0);
      cbn [enc_h_c_2 enc_h_c_1 enc_f_c enc_d enc_len];
      rewrite ?length_replicate, ?length_take; try lia;
      [|by apply Forall_take].
    rewrite bind_Ok. cbn [enc_h_c_2 enc_h_c_1 enc_f_c enc_d enc_len].
    rewrite !overwrite_full by (rewrite length_fmap, length_take; lia).
    rewrite !app_nil_r, length_fmap, ?length_take. done.
Qed.

End label_encoder.

Section encoder_claims.
Import Hindi.

Lemma target_h2_pos hs : halves_ok hs = true → (2 ≤ target_h2 hs)%Z.
Proof.
  destruct hs as [|c|c1 c2]; cbn [halves_ok target_h2]; intros Hok; [done..|].
  apply andb_true_iff in Hok as [H1 _].
  destruct (is_h_lookup c1 H1) as (_ & [? _] & _). lia.
Qed.

Lemma target_h1_pos hs : halves_ok hs = true → (2 ≤ target_h1 hs)%Z.
Proof.
  destruct hs as [|c|c1 c2]; cbn [halves_ok target_h1]; intros Hok; [done|..].
  - destruct (is_h_lookup c Hok) as (_ & [? _] & _). lia.
  - apply andb_true_iff in Hok as [_ H2].
    destruct (is_h_lookup c2 H2) as (_ & [? _] & _). lia.
Qed.

Lemma target_f_pos g : accepted g → (2 ≤ target_f (g_full g))%Z.
Proof.
  intros [Hwf Hv]. unfold well_formed, valid in *.
  destruct (g_full g) as [f|]; [|done]. cbn [full_ok target_f] in *.
  apply andb_true_iff in Hwf as [Hwf _]. apply andb_true_iff in Hwf as [_ Hf].
  destruct (is_f_lookup f Hf) as (_ & [? _] & _). lia.
Qed.

Lemma zeros_eos : zeros !! eos_id = Some 0%Z.
Proof. reflexivity. Qed.

(** The EOS bit of the target of a group's diacritics is clear. *)
Lemma target_d_eos ds : dias_ok ds = true → target_d ds !! eos_id = Some 0%Z.
Proof.
  destruct ds as [|d|d1 d2]; cbn [dias_ok target_d]; intros Hok.
  - apply zeros_eos.
  - destruct (is_d_lookup d Hok) as (_ & [? _] & _).
    rewrite list_lookup_insert_ne by (unfold eos_id; lia). apply zeros_eos.
  - apply andb_true_iff in Hok as [H1 H2].
    destruct (is_d_lookup d1 H1) as (_ & [? _] & _).
    destruct (is_d_lookup d2 H2) as (_ & [? _] & _).
    rewrite !list_lookup_insert_ne by (unfold eos_id; lia). apply zeros_eos.
Qed.

Lemma accepted_parts g :
  accepted g → halves_ok (g_halves g) = true ∧ dias_ok (g_dias g) = true.
Proof.
  intros [Hwf _]. unfold well_formed in Hwf.
  rewrite !andb_true_iff in Hwf. tauto.
Qed.

End encoder_claims.

Section expected_rows.
Import Hindi.

Lemma after_lookup_eos {A} (vals : list A) max_grps n (eos pad : A) :
  length vals = n → n < max_grps →
  (vals ++ after max_grps n eos pad) !! n = Some eos.
Proof.
  intros <- Hlt. unfold after. rewrite bool_decide_true by done.
  by rewrite list_lookup_middle.
Qed.

Lemma after_lookup_pad {A} (vals : list A) max_grps n (eos pad : A) j :
  length vals = n → n < j < max_grps →
  (vals ++ after max_grps n eos pad) !! j = Some pad.
Proof.
  intros <- Hlt. unfold after. rewrite bool_decide_true by lia.
  rewrite lookup_app_r by lia.
  destruct (j - length vals) as [|i] eqn:E; [lia|]. cbn.
  apply lookup_replicate_2. lia.
Qed.

Lemma after_nil {A} max_grps n (eos pad : A) :
  max_grps ≤ n → after max_grps n eos pad = [].
Proof. intros. unfold after. by rewrite bool_decide_false by lia. Qed.

Lemma eos_row_facts :
  eos_row !! eos_id = Some 1%Z ∧ eos_row !! pad_id = Some 1%Z ∧
  sum_list eos_row = 2%Z.
Proof. vm_compute. done. Qed.

Lemma pad_row_facts :
  pad_row !! pad_id = Some 1%Z ∧ pad_row !! eos_id = Some 0%Z.
Proof. vm_compute. done. Qed.

End expected_rows.

(** C2.  When the label has at least [max_grps] groups, [label_encoder]
    returns an encoding of exactly [max_grps] groups: every head has
    length [max_grps], position [j] holds what [grp_class_encoder] gives
    for the [j]-th group, and no position holds EOS (class 0 in the
    half- and full-character heads, bit 0 in the diacritic rows). *)
Theorem label_encoder_truncates (max_grps : nat) (label : str) :
  max_grps ≤ length (Hindi.label_transform label) →
  ∃ e, Hindi.label_encoder max_grps label = Ok e ∧
    Hindi.enc_len e = max_grps ∧
    length (Hindi.enc_h_c_2 e) = max_grps ∧
    length (Hindi.enc_h_c_1 e) = max_grps ∧
    length (Hindi.enc_f_c e) = max_grps ∧
    length (Hindi.enc_d e) = max_grps ∧
    (∀ j grp, j < max_grps → Hindi.label_transform label !! j = Some grp →
       ∃ h2 h1 f d, Hindi.grp_class_encoder grp = Ok (h2, h1, f, d) ∧
         Hindi.enc_h_c_2 e !! j = Some h2 ∧ Hindi.enc_h_c_1 e !! j = Some h1 ∧
         Hindi.enc_f_c e !! j = Some f ∧ Hindi.enc_d e !! j = Some d) ∧
    (∀ j, Hindi.enc_h_c_2 e !! j ≠ Some (Z.of_nat Hindi.eos_id)) ∧
    (∀ j, Hindi.enc_h_c_1 e !! j ≠ Some (Z.of_nat Hindi.eos_id)) ∧
    (∀ j, Hindi.enc_f_c e !! j ≠ Some (Z.of_nat Hindi.eos_id)) ∧
    (∀ j row, Hindi.enc_d e !! j = Some row → row !! Hindi.eos_id = Some 0%Z).
Proof.
  intros Hlen.
  destruct (label_transform_groups label) as (gs & Hgs & Hall).
  rewrite Hgs, length_fmap in Hlen.
  exists (expected max_grps gs). split; [by apply label_encoder_spec|].
  unfold expected. rewrite !after_nil, !app_nil_r by done.
  cbn [Hindi.enc_len Hindi.enc_h_c_2 Hindi.enc_h_c_1 Hindi.enc_f_c Hindi.enc_d].
  rewrite !length_fmap, !length_take, Nat.min_l by done.
  assert (Forall accepted (take max_grps gs)) as Hkept by by apply Forall_take.
  split_and!; try done.
  - intros j grp Hj. rewrite Hgs, list_lookup_fmap.
    destruct (gs !! j) as [g|] eqn:Hg; [|done]. intros [= <-].
    destruct (proj1 (Forall_lookup _ _) Hall j g Hg) as [Hwf Hv].
    eexists _, _, _, _. split; [by apply grp_class_encoder_render|].
    rewrite !list_lookup_fmap, !lookup_take_lt, Hg by done. done.
  - intros j. rewrite list_lookup_fmap.
    destruct (take max_grps gs !! j) as [g|] eqn:Hg; [|done].
    pose proof (proj1 (Forall_lookup _ _) Hkept j g Hg) as Hacc.
    pose proof (target_h2_pos _ (proj1 (accepted_parts g Hacc))).
    cbn [fmap option_fmap option_map]. intros [= Heq].
    unfold Hindi.eos_id in Heq. lia.
  - intros j. rewrite list_lookup_fmap.
    destruct (take max_grps gs !! j) as [g|] eqn:Hg; [|done].
    pose proof (proj1 (Forall_lookup _ _) Hkept j g Hg) as Hacc.
    pose proof (target_h1_pos _ (proj1 (accepted_parts g Hacc))).
    cbn [fmap option_fmap option_map]. intros [= Heq].
    unfold Hindi.eos_id in Heq. lia.
  - intros j. rewrite list_lookup_fmap.
    destruct (take max_grps gs !! j) as [g|] eqn:Hg; [|done].
    pose proof (proj1 (Forall_lookup _ _) Hkept j g Hg) as Hacc.
    pose proof (target_f_pos g Hacc).
    cbn [fmap option_fmap option_map]. intros [= Heq].
    unfold Hindi.eos_id in Heq. lia.
  - intros j row. rewrite list_lookup_fmap.
    destruct (take max_grps gs !! j) as [g|] eqn:Hg; [|done].
    pose proof (proj1 (Forall_lookup _ _) Hkept j g Hg) as Hacc.
    cbn [fmap option_fmap option_map]. intros [= <-].
    apply target_d_eos, (accepted_parts g Hacc).
Qed.

Lemma label_encoder_truncates_witness :
  ∃ e, Hindi.label_encoder 1 [0x915; 0x915]%N = Ok e ∧ Hindi.enc_len e = 1.
Proof.
  destruct (label_encoder_truncates 1 [0x915; 0x915]%N ltac:(vm_compute; lia))
    as (e & He & Hlen & _).
  exists e. split; assumption.
Defined.

(** C3.  When the label has fewer groups than [max_grps], [label_encoder]
    returns an encoding with EOS at index [group_count] in both
    half-character heads and the full-character head and the EOS bit set
    in the diacritic row of that index, and with PAD at every later
    index, the PAD bit of the diacritic rows included. *)
Theorem label_encoder_pads (max_grps : nat) (label : str) :
  length (Hindi.label_transform label) < max_grps →
  ∃ e, Hindi.label_encoder max_grps label = Ok e ∧
    Hindi.enc_len e = length (Hindi.label_transform label) ∧
    Hindi.enc_h_c_2 e !! Hindi.enc_len e = Some (Z.of_nat Hindi.eos_id) ∧
    Hindi.enc_h_c_1 e !! Hindi.enc_len e = Some (Z.of_nat Hindi.eos_id) ∧
    Hindi.enc_f_c e !! Hindi.enc_len e = Some (Z.of_nat Hindi.eos_id) ∧
    (∃ row, Hindi.enc_d e !! Hindi.enc_len e = Some row ∧
            row !! Hindi.eos_id = Some 1%Z) ∧
    (∀ j, Hindi.enc_len e < j < max_grps →
       Hindi.enc_h_c_2 e !! j = Some (Z.of_nat Hindi.pad_id) ∧
       Hindi.enc_h_c_1 e !! j = Some (Z.of_nat Hindi.pad_id) ∧
       Hindi.enc_f_c e !! j = Some (Z.of_nat Hindi.pad_id) ∧
       ∃ row, Hindi.enc_d e !! j = Some row ∧
              row !! Hindi.pad_id = Some 1%Z ∧ row !! Hindi.eos_id = Some 0%Z).
Proof.
  intros Hlen.
  destruct (label_transform_groups label) as (gs & Hgs & Hall).
  rewrite Hgs, length_fmap in *.
  exists (expected max_grps gs). split; [by apply label_encoder_spec|].
  unfold expected. rewrite take_ge by lia.
  cbn [Hindi.enc_len Hindi.enc_h_c_2 Hindi.enc_h_c_1 Hindi.enc_f_c Hindi.enc_d].
  split_and!; try done.
  1-3: by apply after_lookup_eos; rewrite ?length_fmap.
  - exists eos_row. split; [|apply eos_row_facts].
    by apply after_lookup_eos; rewrite ?length_fmap.
  - intros j Hj. split_and!.
    1-3: by apply after_lookup_pad; rewrite ?length_fmap.
    exists pad_row. split; [|apply pad_row_facts].
    by apply after_lookup_pad; rewrite ?length_fmap.
Qed.

Lemma label_encoder_pads_witness :
  ∃ e, Hindi.label_encoder 25 [0x915; 0x94D; 0x915]%N = Ok e ∧
       Hindi.enc_f_c e !! 1 = Some 0%Z.
Proof.
  destruct (label_encoder_pads 25 [0x915; 0x94D; 0x915]%N ltac:(vm_compute; lia))
    as (e & He & Hlen & _ & _ & Hf & _).
  exists e. split; [assumption|].
  rewrite Hlen in Hf. exact Hf.
Defined.

(** C10.  When the label has fewer groups than [max_grps], the diacritic
    row at index [group_count] has the EOS bit (index 0) and the PAD bit
    (index 1) both set, and nothing else: its sum is 2, so it is not
    one-hot. *)
Theorem eos_row_keeps_pad_bit (max_grps : nat) (label : str) :
  length (Hindi.label_transform label) < max_grps →
  ∃ e row, Hindi.label_encoder max_grps label = Ok e ∧
    Hindi.enc_d e !! length (Hindi.label_transform label) = Some row ∧
    row !! Hindi.eos_id = Some 1%Z ∧ row !! Hindi.pad_id = Some 1%Z ∧
    Hindi.sum_list row = 2%Z.
Proof.
  intros Hlen.
  destruct (label_transform_groups label) as (gs & Hgs & Hall).
  rewrite Hgs, length_fmap in *.
  exists (expected max_grps gs), eos_row.
  split; [by apply label_encoder_spec|].
  split; [|apply eos_row_facts].
  unfold expected. cbn [Hindi.enc_d]. rewrite take_ge by lia.
  by apply after_lookup_eos; rewrite ?length_fmap.
Qed.

Lemma eos_row_keeps_pad_bit_witness :
  ∃ e row, Hindi.label_encoder 25 [0x915]%N = Ok e ∧
    Hindi.enc_d e !! 1 = Some row ∧ Hindi.sum_list row = 2%Z.
Proof.
  destruct (eos_row_keeps_pad_bit 25 [0x915]%N ltac:(vm_compute; lia))
    as (e & row & He & Hrow & _ & _ & Hsum).
  exists e, row. split; [assumption|]. split; assumption.
Defined.

(** ** [_decode_grp] on exact predictions *)

Section decode_group.
Import Hindi.

Lemma contains_nil_l (s : str) : contains [] s = true.
Proof. destruct s; cbn [contains length take]; by rewrite bool_decide_true. Qed.

Lemma contains_char (a b : N) : contains [a] [b] = (a =? b)%N.
Proof.
  cbn [contains length take].
  rewrite (bool_decide_false ([] = [a])) by done. rewrite orb_false_r.
  destruct (N.eqb_spec a b) as [->|Hne].
  - by rewrite bool_decide_true.
  - rewrite bool_decide_false; [done|]. intros [= ?]. done.
Qed.

Lemma order_diacritics_nil_r (d : str) : order_diacritics d [] = d.
Proof.
  unfold order_diacritics. rewrite contains_nil_l.
  destruct (contains d nukta); by rewrite ?app_nil_r.
Qed.

Lemma order_diacritics_canonical a b :
  canonical (TwoDias a b) = true → a ≠ b →
  order_diacritics [a] [b] = [a; b] ∧ order_diacritics [b] [a] = [a; b].
Proof.
  unfold canonical, order_diacritics, nukta, anusvara, visarga.
  rewrite !contains_char. fold NUKTA ANUSVARA VISARGA.
  intros Hc Hne.
  pose proof (neq_eqb_l _ _ Hne) as Hab. pose proof (neq_eqb_r _ _ Hne) as Hba.
  destruct (a =? NUKTA)%N eqn:Ha.
  { apply N.eqb_eq in Ha. rewrite <-Ha, Hba. done. }
  destruct (b =? NUKTA)%N eqn:Hb; [done|].
  destruct (a =? ANUSVARA)%N eqn:Ha'; [done|].
  destruct (b =? ANUSVARA)%N eqn:Hb'; [done|].
  destruct (a =? VISARGA)%N eqn:Ha''; [done|].
  destruct (b =? VISARGA)%N eqn:Hb''; done.
Qed.

Lemma half_part_blank : half_part blank_id = Ok [].
Proof. vm_compute. reflexivity. Qed.

Lemma half_part_idx c : is_h c = true → half_part (idx_h c) = Ok [c; HAL].
Proof.
  intros Hc. destruct (is_h_lookup c Hc) as (_ & _ & Hl).
  unfold half_part. rewrite Hl. cbn [of_option]. rewrite bind_Ok.
  rewrite !str_eqb_length by (cbn; lia). reflexivity.
Qed.

Lemma half_part_h2 hs :
  halves_ok hs = true →
  (p2 ← half_part (Z.to_nat (target_h2 hs));
   p1 ← half_part (Z.to_nat (target_h1 hs)); Ok (p2 ++ p1)) = Ok (render_halves hs).
Proof.
  destruct hs as [|c|c1 c2]; cbn [halves_ok target_h2 target_h1 render_halves];
    intros Hok; rewrite !Nat2Z.id.
  - by rewrite half_part_blank.
  - by rewrite half_part_blank, bind_Ok, half_part_idx.
  - apply andb_true_iff in Hok as [H1 H2].
    by rewrite !half_part_idx, !bind_Ok.
Qed.

Lemma contains_absent (b : N) (pat' s : str) :
  b ∉ s → contains (b :: pat') s = false.
Proof.
  induction s as [|c s IH]; intros Hb; cbn [contains length take].
  - by rewrite bool_decide_false.
  - rewrite not_elem_of_cons in Hb. destruct Hb as [Hbc Hb].
    rewrite bool_decide_false by (intros [= ? _]; done).
    by rewrite IH.
Qed.

Lemma remove_fuel_absent (b : N) (pat' : str) fuel : ∀ s,
  b ∉ s → remove_fuel fuel (b :: pat') s = s.
Proof.
  induction fuel as [|fuel IH]; intros [|c s] Hb; cbn [remove_fuel length take];
    try done.
  rewrite not_elem_of_cons in Hb. destruct Hb as [Hbc Hb].
  rewrite bool_decide_false by (intros [= ? _]; done).
  by rewrite IH.
Qed.

Lemma remove_absent (b : N) (pat' s : str) : b ∉ s → remove (b :: pat') s = s.
Proof. apply remove_fuel_absent. Qed.

Lemma remove_sentinels (s : str) :
  BRACKET ∉ s → remove PAD (remove BLANK s) = s.
Proof.
  intros Hs.
  change BLANK with (BRACKET :: [0x42; 0x5D]%N).
  change PAD with (BRACKET :: [0x50; 0x5D]%N).
  by rewrite !(remove_absent BRACKET _ s Hs).
Qed.

Lemma render_no_bracket g : well_formed g = true → BRACKET ∉ render g.
Proof.
  destruct g as [[|c|c1 c2] [f|] [|d|d1 d2]].
  all: unfold well_formed, render.
  all: cbn [g_halves g_full g_dias halves_ok full_ok dias_ok
            render_halves render_full render_dias app andb].
  all: intros Hwf; split_checks.
  all: repeat match goal with
         | H : is_h ?c = true |- _ =>
             apply is_h_facts in H as (H & _ & _)
         end.
  all: repeat match goal with
         | H : is_f ?c = true |- _ => apply f_no_bracket in H
         | H : is_d ?c = true |- _ => apply d_no_bracket in H
         end.
  all: rewrite ?not_elem_of_cons; split_and?; try done.
  all: try apply not_elem_of_nil.
Qed.

End decode_group.

Section topk.
Import Hindi.
Context (topk2 : list Z → list Z * list nat) (Htopk : topk2_spec topk2).

Lemma length_zeros : length zeros = length d_classes.
Proof. apply length_replicate. Qed.

Lemma zeros_lookup_Some j x : zeros !! j = Some x → x = 0%Z.
Proof. unfold zeros. intros H%lookup_replicate. tauto. Qed.

Lemma two_le_d_classes : 2 ≤ length d_classes.
Proof. vm_compute. lia. Qed.

(** [topk] on a row with no, one or two entries set. *)
Lemma topk_none :
  ∃ p0 p1, topk2 zeros = ([0; 0]%Z, [p0; p1]).
Proof.
  pose proof two_le_d_classes.
  destruct (Htopk zeros) as (v0 & v1 & p0 & p1 & -> & _ & H0 & H1 & _);
    [by rewrite length_zeros|].
  apply zeros_lookup_Some in H0 as ->. apply zeros_lookup_Some in H1 as ->.
  by eexists _, _.
Qed.

Lemma topk_one k :
  k < length d_classes →
  ∃ p1, topk2 (<[k:=1%Z]> zeros) = ([1; 0]%Z, [k; p1]).
Proof.
  intros Hk. pose proof two_le_d_classes.
  destruct (Htopk (<[k:=1%Z]> zeros))
    as (v0 & v1 & p0 & p1 & -> & Hne & H0 & H1 & Hle & Hmax);
    [by rewrite length_insert, length_zeros|].
  assert ((<[k:=1%Z]> zeros) !! k = Some 1%Z) as Hhot
    by (apply list_lookup_insert_eq; by rewrite length_zeros).
  apply list_lookup_insert_Some in H0, H1.
  assert (p0 = k ∧ v0 = 1%Z ∧ v1 = 0%Z) as (-> & -> & ->); [|by eexists].
  destruct H1 as [(Hp1 & <- & _)|(Hp1 & ->%zeros_lookup_Some)].
  - destruct H0 as [(Hp0 & _)|(_ & ->%zeros_lookup_Some)]; [congruence|lia].
  - destruct H0 as [(Hp0 & <- & _)|(Hp0 & _)]; [done|].
    specialize (Hmax k 1%Z ltac:(done) ltac:(done) Hhot). lia.
Qed.

Lemma topk_two k1 k2 :
  k1 ≠ k2 → k1 < length d_classes → k2 < length d_classes →
  topk2 (<[k2:=1%Z]> (<[k1:=1%Z]> zeros)) = ([1; 1]%Z, [k1; k2]) ∨
  topk2 (<[k2:=1%Z]> (<[k1:=1%Z]> zeros)) = ([1; 1]%Z, [k2; k1]).
Proof.
  intros Hk Hk1 Hk2. pose proof two_le_d_classes.
  set (row := <[k2:=1%Z]> (<[k1:=1%Z]> zeros)).
  assert (row !! k1 = Some 1%Z) as Hhot1.
  { unfold row. rewrite list_lookup_insert_ne by done.
    apply list_lookup_insert_eq. by rewrite length_zeros. }
  assert (row !! k2 = Some 1%Z) as Hhot2.
  { unfold row. apply list_lookup_insert_eq.
    by rewrite length_insert, length_zeros. }
  assert (∀ j x, row !! j = Some x →
            (j = k1 ∨ j = k2) ∧ x = 1%Z ∨ j ≠ k1 ∧ j ≠ k2 ∧ x = 0%Z) as Hrow.
  { intros j x. unfold row. rewrite !list_lookup_insert_Some.
    intros [(<- & <- & _)|(? & Hj)]; [auto|].
    destruct Hj as [(<- & <- & _)|(? & ->%zeros_lookup_Some)]; auto. }
  destruct (Htopk row) as (v0 & v1 & p0 & p1 & -> & Hne & H0 & H1 & Hle & Hmax);
    [unfold row; by rewrite !length_insert, length_zeros|].
  apply Hrow in H0, H1.
  assert (v1 = 1%Z) as ->.
  { destruct H1 as [[_ ->]|(Hp1 & Hp1' & ->)]; [done|].
    destruct (decide (p0 = k1)) as [->|Hp0].
    - specialize (Hmax k2 1%Z ltac:(lia) ltac:(lia) Hhot2). lia.
    - specialize (Hmax k1 1%Z ltac:(lia) ltac:(lia) Hhot1). lia. }
  destruct H0 as [[Hp0 ->]|(_ & _ & ->)]; [|lia].
  destruct H1 as [[Hp1 _]|(_ & _ & ?)]; [|lia].
  assert (p0 = k1 ∧ p1 = k2 ∨ p0 = k2 ∧ p1 = k1) as [[-> ->]|[-> ->]] by lia;
    auto.
Qed.

Lemma dia_part_off dp dm i : dm !! i = Some 0%Z → dia_part dp dm i = Ok [].
Proof.
  intros Hm. unfold dia_part. rewrite Hm. cbn [of_option]. rewrite bind_Ok.
  by rewrite bool_decide_true.
Qed.

Lemma dia_part_on dp dm i k s :
  dm !! i = Some 1%Z → dp !! i = Some k → d_c_label_map k = Some s →
  dia_part dp dm i = Ok s.
Proof.
  intros Hm Hp Hs. unfold dia_part. rewrite Hm. cbn [of_option]. rewrite bind_Ok.
  rewrite bool_decide_false by done. rewrite Hp. cbn [of_option].
  rewrite bind_Ok. by rewrite Hs.
Qed.

(** The two diacritic strings [_decode_grp] reads off the top two
    entries of a target row are the diacritics of the group, in one of
    the two orders when there are two. *)
Lemma dia_parts_target ds :
  dias_ok ds = true → dias_distinct ds = true → canonical ds = true →
  ∃ dm dp, topk2 (target_d ds) = (dm, dp) ∧
    length dp = length dm ∧ length dm = 2 ∧
    ∃ s1 s2, dia_part dp dm 0 = Ok s1 ∧ dia_part dp dm 1 = Ok s2 ∧
             order_diacritics s1 s2 = render_dias ds.
Proof.
  intros Hok Hdis Hcan.
  destruct ds as [|d|d1 d2]; cbn [dias_ok dias_distinct target_d render_dias] in *.
  - destruct topk_none as (p0 & p1 & ->).
    eexists _, _. split_and!; try done.
    exists [], []. rewrite !dia_part_off by done.
    by rewrite order_diacritics_nil_r.
  - destruct (is_d_lookup d Hok) as (_ & [_ Hk] & Hl).
    destruct (topk_one _ Hk) as (p1 & ->).
    eexists _, _. split_and!; try done.
    exists [d], []. rewrite (dia_part_on _ _ 0 (idx_d d) [d]) by done.
    rewrite dia_part_off by done. by rewrite order_diacritics_nil_r.
  - apply andb_true_iff in Hok as [Hd1 Hd2].
    apply negb_true_iff, N.eqb_neq in Hdis.
    destruct (is_d_lookup d1 Hd1) as (_ & [_ Hk1] & Hl1).
    destruct (is_d_lookup d2 Hd2) as (_ & [_ Hk2] & Hl2).
    assert (idx_d d1 ≠ idx_d d2) as Hk by (intros ?; by apply Hdis, idx_d_inj).
    destruct (order_diacritics_canonical d1 d2 Hcan Hdis) as [Ho1 Ho2].
    destruct (topk_two _ _ Hk Hk1 Hk2) as [-> | ->].
    + eexists _, _. split_and!; try done. exists [d1], [d2].
      rewrite (dia_part_on _ _ 0 (idx_d d1) [d1]) by done.
      by rewrite (dia_part_on _ _ 1 (idx_d d2) [d2]) by done.
    + eexists _, _. split_and!; try done. exists [d2], [d1].
      rewrite (dia_part_on _ _ 0 (idx_d d2) [d2]) by done.
      by rewrite (dia_part_on _ _ 1 (idx_d d1) [d1]) by done.
Qed.

(** A validated group whose diacritics are in the order of the
    tie-break chain is decoded from its targets. *)
Lemma decode_slot_target g :
  accepted g → canonical (g_dias g) = true →
  decode_slot topk2 (target g) = Ok (render g) ∧ contains EOS (render g) = false.
Proof.
  intros [Hwf Hv] Hcan. pose proof (render_no_bracket g Hwf) as Hnb.
  split; [|by apply contains_absent].
  revert Hnb. unfold decode_slot, target, render, well_formed, valid in *.
  cbn [slot_h2 slot_h1 slot_f slot_d fst snd].
  apply andb_true_iff in Hwf as [Hwf Hds]. apply andb_true_iff in Hwf as [Hhs Hf].
  apply andb_true_iff in Hv as [Hfull Hdis].
  destruct (dia_parts_target _ Hds Hdis Hcan)
    as (dm & dp & -> & Hl1 & Hl2 & s1 & s2 & Hs1 & Hs2 & Ho).
  cbn [fst snd]. unfold _decode_grp.
  rewrite (bool_decide_true _ Hl1), (bool_decide_true _ Hl2).
  cbn [andb assert]. rewrite bind_Ok.
  destruct (g_full g) as [f|]; [|done]. cbn [full_ok target_f render_full] in *.
  destruct (is_f_lookup f Hf) as (_ & _ & Hlf).
  intros Hnb.
  destruct (g_halves g) as [|c|c1 c2];
    cbn [halves_ok target_h2 target_h1 render_halves] in *; rewrite !Nat2Z.id.
  - rewrite half_part_blank, !bind_Ok, Hlf. cbn [of_option].
    rewrite bind_Ok, Hs1, bind_Ok, Hs2, bind_Ok, Ho.
    cbn [app] in *. by rewrite remove_sentinels.
  - rewrite half_part_blank, bind_Ok, (half_part_idx c Hhs), bind_Ok, Hlf.
    cbn [of_option].
    rewrite bind_Ok, Hs1, bind_Ok, Hs2, bind_Ok, Ho.
    cbn [app] in *. by rewrite remove_sentinels.
  - apply andb_true_iff in Hhs as [Hc1 Hc2].
    rewrite (half_part_idx c1 Hc1), bind_Ok, (half_part_idx c2 Hc2), bind_Ok, Hlf.
    cbn [of_option].
    rewrite bind_Ok, Hs1, bind_Ok, Hs2, bind_Ok, Ho.
    cbn [app] in *. by rewrite remove_sentinels.
Qed.

(** The end marker: the row after the last group decodes to a string
    that holds EOS, in either order of its two set bits. *)
Lemma decode_slot_eos :
  ∃ grp, decode_slot topk2 (0%Z, 0%Z, 0%Z, eos_row) = Ok grp ∧
         contains EOS grp = true.
Proof.
  unfold decode_slot. cbn [slot_h2 slot_h1 slot_f slot_d fst snd].
  destruct (topk_two pad_id eos_id) as [Ht|Ht];
    [done | vm_compute; lia | vm_compute; lia | ..].
  all: change (<[eos_id:=1%Z]> (<[pad_id:=1%Z]> zeros)) with eos_row in Ht.
  all: rewrite Ht; cbn [fst snd].
  all: eexists; split; [vm_compute; reflexivity|vm_compute; reflexivity].
Qed.

End topk.

(** ** [decode] on the exact logits of an encoding *)

Section exact_decoding.
Import Hindi.
Context (active : Z → bool) (Hon : active 1%Z = true) (Hoff : active 0%Z = false).
Context (topk2 : list Z → list Z * list nat) (Htopk : topk2_spec topk2).

Lemma argmax_from_hot k m : ∀ i besti,
  argmax_from 1 besti i ((λ j, if bool_decide (j = k) then 1%Z else 0%Z) <$> seq i m)
  = besti.
Proof.
  induction m as [|m IH]; intros i besti; cbn [seq fmap list_fmap argmax_from];
    [done|].
  destruct (bool_decide (i = k)); cbn; apply IH.
Qed.

Lemma argmax_from_cold k m : ∀ i besti,
  i ≤ k < i + m →
  argmax_from 0 besti i ((λ j, if bool_decide (j = k) then 1%Z else 0%Z) <$> seq i m)
  = k.
Proof.
  induction m as [|m IH]; intros i besti Hk; [lia|].
  cbn [seq fmap list_fmap argmax_from].
  destruct (decide (i = k)) as [->|Hne].
  - rewrite bool_decide_true by done. cbn. apply argmax_from_hot.
  - rewrite bool_decide_false by done. cbn. apply IH. lia.
Qed.

Lemma argmax_one_hot n k : k < n → argmax (one_hot n k) = Ok k.
Proof.
  intros Hk. unfold one_hot. destruct n as [|n]; [lia|].
  cbn [seq fmap list_fmap argmax]. f_equal.
  destruct (decide (0 = k)) as [<-|Hne].
  - rewrite bool_decide_true by done. apply argmax_from_hot.
  - rewrite bool_decide_false by done. apply argmax_from_cold. lia.
Qed.

Lemma traverse_fmap_Ok {A B C} (f : B → result C) (g : A → B) (h : A → C) l :
  Forall (λ x, f (g x) = Ok (h x)) l → traverse f (g <$> l) = Ok (h <$> l).
Proof.
  induction 1 as [|x l Hx _ IH]; [done|].
  cbn [fmap list_fmap traverse]. rewrite Hx, bind_Ok.
  change (list_fmap A B g l) with (g <$> l). rewrite IH, bind_Ok. done.
Qed.

Lemma binary_mask (row : list Z) :
  Forall (λ x, x = 0%Z ∨ x = 1%Z) row →
  (λ x, if active x then 1%Z else 0%Z) <$> row = row.
Proof.
  induction 1 as [|x row [-> | ->] _ IH]; [done|..];
    cbn [fmap list_fmap]; rewrite ?Hon, ?Hoff; f_equal; apply IH.
Qed.

Lemma fmap_after {A B} (f : A → B) m n (e p : A) :
  f <$> after m n e p = after m n (f e) (f p).
Proof.
  unfold after. destruct (bool_decide (n < m)); [|done].
  by rewrite fmap_cons, fmap_replicate.
Qed.

Lemma expected_slots max_grps gs :
  expected max_grps gs =
  Encoded (slot_h2 <$> slots max_grps gs) (slot_h1 <$> slots max_grps gs)
    (slot_f <$> slots max_grps gs) (slot_d <$> slots max_grps gs)
    (length (take max_grps gs)).
Proof.
  unfold expected, slots. rewrite !fmap_app, !fmap_after, <-!list_fmap_compose.
  reflexivity.
Qed.

Lemma zeros_binary : Forall (λ x, x = 0%Z ∨ x = 1%Z) zeros.
Proof. unfold zeros. apply Forall_replicate. auto. Qed.

Lemma target_slot_ok g : accepted g → slot_ok (target g).
Proof.
  intros Hacc. destruct (accepted_parts g Hacc) as [Hhs Hds].
  destruct Hacc as [Hwf Hv]. unfold slot_ok, target.
  cbn [slot_h2 slot_h1 slot_f slot_d fst snd].
  assert (3 ≤ length h_c_classes) by (vm_compute; lia).
  split_and!.
  - destruct (g_halves g) as [|c|c1 c2]; cbn [halves_ok target_h2] in *;
      rewrite Nat2Z.id; unfold blank_id; try lia.
    apply andb_true_iff in Hhs as [H1 _].
    destruct (is_h_lookup c1 H1) as (_ & ? & _). lia.
  - destruct (g_halves g) as [|c|c1 c2]; cbn [halves_ok target_h1] in *;
      rewrite Nat2Z.id; unfold blank_id; try lia.
    + destruct (is_h_lookup c Hhs) as (_ & ? & _). lia.
    + apply andb_true_iff in Hhs as [_ H2].
      destruct (is_h_lookup c2 H2) as (_ & ? & _). lia.
  - unfold well_formed, valid in *.
    destruct (g_full g) as [f|]; [|done]. cbn [full_ok target_f] in *.
    apply andb_true_iff in Hwf as [Hwf _]. apply andb_true_iff in Hwf as [_ Hf].
    destruct (is_f_lookup f Hf) as (_ & ? & _). rewrite Nat2Z.id. lia.
  - destruct (g_dias g); cbn [target_d]; by rewrite ?length_insert, length_zeros.
  - destruct (g_dias g); cbn [target_d];
      repeat apply Forall_insert; auto using zeros_binary.
Qed.

Lemma eos_slot_ok : slot_ok (0%Z, 0%Z, 0%Z, eos_row).
Proof.
  unfold slot_ok. cbn [slot_h2 slot_h1 slot_f slot_d fst snd].
  split_and!; try (vm_compute; lia).
  unfold eos_row, pad_row. repeat apply Forall_insert; auto using zeros_binary.
Qed.

Lemma pad_slot_ok : slot_ok (1%Z, 1%Z, 1%Z, pad_row).
Proof.
  unfold slot_ok. cbn [slot_h2 slot_h1 slot_f slot_d fst snd].
  split_and!; try (vm_compute; lia).
  unfold pad_row. repeat apply Forall_insert; auto using zeros_binary.
Qed.

Lemma slots_ok max_grps gs : Forall accepted gs → Forall slot_ok (slots max_grps gs).
Proof.
  intros Hall. unfold slots, after. apply Forall_app. split.
  - apply Forall_fmap, Forall_take. eapply Forall_impl; [exact Hall|].
    intros g Hg. by apply target_slot_ok.
  - destruct (bool_decide _); [|constructor].
    constructor; [apply eos_slot_ok|].
    apply Forall_replicate, pad_slot_ok.
Qed.

(** The loop over group positions reads the positions in turn. *)
Lemma decode_groups_slots (ts : list slot) m : ∀ k acc,
  k + m ≤ length ts →
  decode_groups (seq k m)
    (Z.to_nat ∘ slot_h2 <$> ts) (Z.to_nat ∘ slot_h1 <$> ts)
    (Z.to_nat ∘ slot_f <$> ts)
    ((λ t, (topk2 (slot_d t)).1) <$> ts) ((λ t, (topk2 (slot_d t)).2) <$> ts) acc
  = decode_slots topk2 (take m (drop k ts)) acc.
Proof.
  induction m as [|m IH]; intros k acc Hk; [done|].
  destruct (lookup_lt_is_Some_2 ts k ltac:(lia)) as [t Ht].
  rewrite (drop_S _ _ _ Ht). cbn [seq take decode_groups decode_slots].
  rewrite !list_lookup_fmap, Ht. cbn [fmap option_fmap option_map of_option].
  rewrite !bind_Ok.
  change (_decode_grp _ _ _ _ _) with (decode_slot topk2 t).
  destruct (decode_slot topk2 t) as [grp|e]; [|reflexivity]. rewrite !bind_Ok.
  destruct (contains EOS grp); [done|]. apply IH. lia.
Qed.

(** [decode] on the exact logits of an expected encoding is the loop
    over its positions. *)
Lemma decode_exact_slots max_grps gs :
  Forall accepted gs →
  length (slots max_grps gs) = max_grps →
  decode active topk2 max_grps (exact_logits (expected max_grps gs))
  = (label ← decode_slots topk2 (slots max_grps gs) []; Ok [label]).
Proof.
  intros Hall Hlen. pose proof (slots_ok max_grps gs Hall) as Hok.
  rewrite expected_slots. unfold decode, exact_logits.
  cbn [enc_h_c_2 enc_h_c_1 enc_f_c enc_d]. cbn [traverse length].
  rewrite <-!list_fmap_compose.
  rewrite (traverse_fmap_Ok argmax (_ ∘ slot_h2) (Z.to_nat ∘ slot_h2)); cycle 1.
  { eapply Forall_impl; [exact Hok|]. intros t (? & _). by apply argmax_one_hot. }
  rewrite !bind_Ok.
  rewrite (traverse_fmap_Ok argmax (_ ∘ slot_h1) (Z.to_nat ∘ slot_h1)); cycle 1.
  { eapply Forall_impl; [exact Hok|]. intros t (_ & ? & _). by apply argmax_one_hot. }
  rewrite !bind_Ok.
  rewrite (traverse_fmap_Ok argmax (_ ∘ slot_f) (Z.to_nat ∘ slot_f)); cycle 1.
  { eapply Forall_impl; [exact Hok|]. intros t (_ & _ & ? & _).
    by apply argmax_one_hot. }
  rewrite !bind_Ok. cbn [fmap list_fmap traverse].
  change (list_fmap ?A ?B ?f ?l) with (f <$> l).
  rewrite <-!list_fmap_compose.
  rewrite (traverse_fmap_Ok _ _ (λ t, topk2 (slot_d t))); cycle 1.
  { eapply Forall_impl; [exact Hok|]. intros t (_ & _ & _ & Hl & Hb).
    cbn [compose]. rewrite (binary_mask _ Hb). unfold topk_row.
    rewrite bool_decide_false; [done|]. rewrite Hl. vm_compute. lia. }
  rewrite !bind_Ok. cbn [fmap list_fmap seq traverse lookup list_lookup of_option].
  change (list_fmap ?A ?B ?f ?l) with (f <$> l).
  rewrite !bind_Ok, <-!list_fmap_compose.
  pose proof (decode_groups_slots (slots max_grps gs) max_grps 0 []) as Hd.
  rewrite drop_0, take_ge in Hd by lia.
  unfold compose in *. rewrite Hd by lia. done.
Qed.

End exact_decoding.

(** ** The round trip through [label_encoder] and [decode] *)

Section round_trip.
Import Hindi.
Context (topk2 : list Z → list Z * list nat) (Htopk : topk2_spec topk2).

Lemma tie_break_order_render g :
  accepted g → tie_break_order (render g) = canonical (g_dias g).
Proof.
  intros [Hwf Hv]. unfold well_formed, valid in *.
  destruct g as [hs [f|] ds]; cbn [g_halves g_full g_dias andb] in *;
    [|discriminate].
  rewrite !andb_true_iff in Hwf. destruct Hwf as [[Hhs Hf] Hds].
  cbn [full_ok] in Hf. destruct (is_f_facts f Hf) as [Hfd _].
  destruct HAL_facts as (_ & _ & HHd).
  unfold tie_break_order, render.
  destruct hs, ds;
    cbn [render_halves render_full render_dias app g_halves g_full g_dias
         reverse rev_append dias_ok] in *;
    rewrite ?Hfd, ?HHd, ?Hds; reflexivity.
Qed.

Lemma decode_slots_targets gs : ∀ rest acc,
  Forall accepted gs → Forall (λ g, canonical (g_dias g) = true) gs →
  decode_slots topk2 ((target <$> gs) ++ rest) acc
  = decode_slots topk2 rest (acc ++ concat (render <$> gs)).
Proof.
  induction gs as [|g gs IH]; intros rest acc Hacc Hcan.
  - cbn. by rewrite app_nil_r.
  - apply Forall_cons in Hacc as [Hg Hacc]. apply Forall_cons in Hcan as [Hc Hcan].
    destruct (decode_slot_target topk2 Htopk g Hg Hc) as [Hd Hnb].
    rewrite fmap_cons. cbn [app decode_slots]. rewrite Hd, bind_Ok, Hnb.
    rewrite IH by done. rewrite fmap_cons. cbn [concat]. by rewrite app_assoc.
Qed.

Lemma decode_slots_after max_grps n acc :
  decode_slots topk2
    (after max_grps n (0%Z, 0%Z, 0%Z, eos_row) (1%Z, 1%Z, 1%Z, pad_row)) acc
  = Ok acc.
Proof.
  unfold after. destruct (bool_decide _); [|done]. cbn [decode_slots].
  destruct (decode_slot_eos topk2 Htopk) as (grp & -> & Hc).
  by rewrite bind_Ok, Hc.
Qed.

Lemma length_slots max_grps gs :
  length gs ≤ max_grps → length (slots max_grps gs) = max_grps.
Proof.
  intros Hlen. unfold slots, after.
  rewrite length_app, length_fmap, length_take.
  case_bool_decide; cbn [length]; rewrite ?length_replicate; lia.
Qed.

End round_trip.

(** *** [topk2_first] is a top-2 selection *)

Lemma argmax_from_spec row : ∀ best besti i,
  (argmax_from best besti i row = besti ∧ Forall (λ x, (x ≤ best)%Z) row) ∨
  (∃ v, i ≤ argmax_from best besti i row ∧
        row !! (argmax_from best besti i row - i) = Some v ∧
        (best < v)%Z ∧ Forall (λ x, (x ≤ v)%Z) row).
Proof.
  induction row as [|x row IH]; intros best besti i; cbn [argmax_from].
  - left. by split.
  - destruct (Z.ltb_spec best x) as [Hlt|Hge].
    + right. destruct (IH x i (S i)) as [[Hr Hall]|(v & Hi & Hv & Hxv & Hall)].
      * exists x. rewrite Hr, Nat.sub_diag. split_and!; [lia|done|lia|].
        constructor; [lia|done].
      * exists v. split_and!; [lia| |lia|constructor; [lia|done]].
        replace (argmax_from x i (S i) row - i)
          with (S (argmax_from x i (S i) row - S i)) by lia. done.
    + destruct (IH best besti (S i)) as [[Hr Hall]|(v & Hi & Hv & Hxv & Hall)].
      * left. split; [done|]. constructor; [lia|done].
      * right. exists v. split_and!; [lia| |lia|constructor; [lia|done]].
        replace (argmax_from best besti (S i) row - i)
          with (S (argmax_from best besti (S i) row - S i)) by lia. done.
Qed.

Lemma argmax_spec row :
  row ≠ [] →
  ∃ a v, argmax row = Ok a ∧ row !! a = Some v ∧ Forall (λ x, (x ≤ v)%Z) row.
Proof.
  destruct row as [|x row]; [done|]. intros _. cbn [argmax].
  destruct (argmax_from_spec row x 0 1) as [[Hr Hall]|(v & Hi & Hv & Hxv & Hall)].
  - exists 0, x. rewrite Hr. split_and!; [done..|]. constructor; [lia|done].
  - exists (argmax_from x 0 1 row), v. split_and!; [done| |constructor; [lia|done]].
    destruct (argmax_from x 0 1 row) as [|r]; [lia|].
    cbn in Hv. by rewrite Nat.sub_0_r in Hv.
Qed.

Lemma foldl_max_spec (rest : list (nat * Z)) : ∀ iv,
  let r := foldl (λ (b iv : nat * Z), if (b.2 <? iv.2)%Z then iv else b) iv rest in
  r ∈ iv :: rest ∧ ∀ y, y ∈ iv :: rest → (y.2 ≤ r.2)%Z.
Proof.
  induction rest as [|y rest IH]; intros iv; cbn [foldl].
  - split; [by left|]. intros z ->%list_elem_of_singleton. lia.
  - destruct (IH (if (iv.2 <? y.2)%Z then y else iv)) as [Hin Hmax].
    cbv zeta in *. split.
    + apply elem_of_cons in Hin as [->|Hin].
      * destruct (iv.2 <? y.2)%Z; [right; left|left].
      * by do 2 right.
    + intros z Hz.
      assert (z ∈ (if (iv.2 <? y.2)%Z then y else iv) :: rest
              ∨ (z.2 ≤ (if (iv.2 <? y.2)%Z then y else iv).2)%Z) as [Hz'|Hz'].
      { apply elem_of_cons in Hz as [->|Hz].
        - right. destruct (Z.ltb_spec iv.2 y.2); lia.
        - apply elem_of_cons in Hz as [->|Hz].
          + right. destruct (Z.ltb_spec iv.2 y.2); lia.
          + left. by right. }
      * by apply Hmax.
      * etrans; [exact Hz'|]. apply Hmax. by left.
Qed.

Lemma second_from_spec a row :
  2 ≤ length row →
  Hindi.second_from a row ≠ a ∧
  ∃ v1, row !! Hindi.second_from a row = Some v1 ∧
        ∀ j x, j ≠ a → row !! j = Some x → (x ≤ v1)%Z.
Proof.
  intros Hlen. unfold Hindi.second_from.
  set (L := filter _ _).
  assert (∀ j x, (j, x) ∈ L ↔ j ≠ a ∧ row !! j = Some x) as HL.
  { intros j x. unfold L. rewrite list_elem_of_filter, elem_of_lookup_imap.
    cbn. split.
    - intros (Hne & i & y & [= -> ->] & Hy). done.
    - intros [Hne Hx]. split; [done|]. by exists j, x. }
  destruct L as [|iv rest] eqn:HeqL.
  - exfalso. destruct (decide (a = 0)) as [->|Hne].
    + destruct (lookup_lt_is_Some_2 row 1 ltac:(lia)) as [x Hx].
      assert ((1, x) ∈ @nil (nat * Z)) as Hin by (apply (proj2 (HL _ _)); split; [lia|done]).
      by apply elem_of_nil in Hin.
    + destruct (lookup_lt_is_Some_2 row 0 ltac:(lia)) as [x Hx].
      assert ((0, x) ∈ @nil (nat * Z)) as Hin by (apply (proj2 (HL _ _)); split; [lia|done]).
      by apply elem_of_nil in Hin.
  - destruct (foldl_max_spec rest iv) as [Hin Hmax]. cbv zeta in *.
    set (r := foldl _ iv rest) in *.
    destruct r as [b v1] eqn:Hr. apply (proj1 (HL _ _)) in Hin as [Hne Hb]. cbn [fst].
    split; [done|]. exists v1. split; [done|].
    intros j x Hj Hx. apply (Hmax (j, x)). by apply (proj2 (HL _ _)).
Qed.

Lemma topk2_first_spec : Hindi.topk2_spec Hindi.topk2_first.
Proof.
  intros row Hlen.
  destruct (argmax_spec row) as (a & v0 & Ha & Hv0 & Hall).
  { intros ->. cbn in Hlen. lia. }
  destruct (second_from_spec a row Hlen) as (Hne & v1 & Hv1 & Hmax).
  unfold Hindi.topk2_first. rewrite Ha. cbv zeta.
  exists v0, v1, a, (Hindi.second_from a row).
  rewrite (list_lookup_total_correct _ _ _ Hv0),
    (list_lookup_total_correct _ _ _ Hv1).
  split_and!; [done|done|done|done| |].
  - by apply (proj1 (Forall_lookup _ _) Hall _ _ Hv1).
  - intros j x Hj _ Hx. by apply (Hmax j).
Qed.

(** ** Groups that end in a halant *)

Lemma str_eqb_true (a b : str) : str_eqb a b = true ↔ a = b.
Proof.
  with_strategy transparent [str_eqb] (unfold str_eqb).
  apply bool_decide_eq_true.
Qed.

Lemma bind_Raise {A B} (e : exn) (k : A → result B) : (Raise e ≫= k) = Raise e.
Proof. reflexivity. Qed.

Lemma getitem_last_snoc (pre : str) (c : N) :
  getitem (pre ++ [c]) (length (pre ++ [c]) - 1) = [c].
Proof.
  unfold getitem. rewrite length_app. cbn [length].
  replace (length pre + 1 - 1) with (length pre) by lia.
  by rewrite drop_app_length.
Qed.

Section malayalam_halant.
Import Malayalam.

(** Before the last position, one iteration of the loop over the groups
    never ends the validation with [True]. *)
Lemma check_group_nonfinal grps grp k :
  grps !! k = Some grp → k + 1 < length grps →
  check_group grps grp ≠ Ok (Return true).
Proof.
  intros Hk Hlt. unfold check_group.
  destruct (decide (grp = [])) as [Hnil|Hnil].
  { by rewrite (bool_decide_true _ Hnil), bind_Raise. }
  rewrite (bool_decide_false _ Hnil), bind_Ok.
  assert (grp ∈ take (length grps - 1) grps) as Hin.
  { apply list_elem_of_lookup. exists k. rewrite lookup_take_lt by lia. done. }
  rewrite (bool_decide_true _ Hin), andb_true_r.
  destruct (str_eqb (getitem grp (length grp - 1)) halanth) eqn:Hlast; [done|].
  destruct (sanity_walk grp 0 counts0) as [st|]; [|done].
  destruct (bool_decide (f_c_count st = 1%Z)); [|done].
  destruct (str_eqb (drop (length grp - 1) grp) halanth) eqn:Hd; [|done].
  exfalso. apply str_eqb_true in Hd.
  assert (str_eqb (getitem grp (length grp - 1)) halanth = true) as Heq.
  { apply str_eqb_true. unfold getitem. rewrite Hd. reflexivity. }
  congruence.
Qed.

Lemma check_group_halant grps pre j :
  grps !! j = Some (pre ++ halanth) → j + 1 < length grps →
  check_group grps (pre ++ halanth) = Ok (Return false).
Proof.
  intros Hj Hlt. unfold check_group.
  rewrite (bool_decide_false (pre ++ halanth = [])); cycle 1.
  { intros H%(f_equal length). rewrite length_app in H. cbn in H. lia. }
  rewrite bind_Ok. unfold halanth at 1 2. rewrite getitem_last_snoc.
  change [3405%N] with halanth. rewrite (proj2 (str_eqb_true _ _) eq_refl).
  rewrite bool_decide_true; [done|].
  apply list_elem_of_lookup. exists j. rewrite lookup_take_lt by lia. done.
Qed.

Lemma sanity_loop_nonfinal grps pre j : ∀ rest seen,
  grps = seen ++ rest → length seen ≤ j →
  grps !! j = Some (pre ++ halanth) → j + 1 < length grps →
  sanity_loop grps rest ≠ Ok true.
Proof.
  induction rest as [|grp rest IH]; intros seen Hgrps Hseen Hj Hlt.
  - rewrite app_nil_r in Hgrps. subst seen. lia.
  - cbn [sanity_loop].
    assert (grps !! length seen = Some grp) as Hgrp.
    { rewrite Hgrps. by rewrite list_lookup_middle. }
    destruct (decide (length seen = j)) as [<-|Hne].
    + pose proof (eq_trans (eq_sym Hgrp) Hj) as Heq. injection Heq as ->.
      by rewrite (check_group_halant grps pre _ Hj Hlt), bind_Ok.
    + pose proof (check_group_nonfinal grps grp (length seen) Hgrp ltac:(lia)) as Hc.
      destruct (check_group grps grp) as [[|[|]]|e]; rewrite ?bind_Ok, ?bind_Raise; try done.
      apply (IH (seen ++ [grp])).
      * by rewrite <-app_assoc.
      * rewrite length_app. cbn [length]. lia.
      * done.
      * done.
Qed.

End malayalam_halant.

Section hindi_halant.
Import Hindi.

(** A group of the scan that ends in a halant has no full character. *)
Lemma render_halant_invalid g pre :
  well_formed g = true → render g = pre ++ halanth → valid g = false.
Proof.
  intros Hwf Hr. assert (last (render g) = Some HAL) as Hlast.
  { rewrite Hr. apply last_snoc. }
  clear Hr. unfold well_formed, valid, render in *.
  destruct g as [hs [f|] ds]; cbn [g_halves g_full g_dias andb] in *; [|done].
  rewrite !andb_true_iff in Hwf. destruct Hwf as [[Hhs Hf] Hds].
  cbn [full_ok] in Hf. destruct (is_f_facts f Hf) as [_ HfH].
  exfalso.
  destruct ds as [|d|d1 d2], hs as [|c|c1 c2];
    cbn [dias_ok render_dias render_full render_halves app last] in *;
    injection Hlast as Hlast.
  1-3: exact (HfH Hlast).
  1-3: destruct (is_d_facts d Hds) as (_ & _ & HdH); exact (HdH Hlast).
  all: apply andb_true_iff in Hds as [_ Hd2];
    destruct (is_d_facts d2 Hd2) as (_ & _ & HdH); exact (HdH Hlast).
Qed.

Lemma grp_sanity_lookup label grps j grp :
  grps !! j = Some grp → grp_ok grp = false → grp_sanity label grps = false.
Proof.
  intros Hj Hbad. destruct (grp_sanity label grps) eqn:Hs; [|done].
  apply grp_sanity_forall in Hs.
  pose proof (proj1 (Forall_lookup _ _) Hs j grp Hj). congruence.
Qed.

End hindi_halant.

(** C7 (amended).  In the Malayalam validator a group that ends in a
    halant and stands before the last position keeps [grp_sanity] from
    returning [True]: it returns [False], or an earlier empty group
    raises.  The Hindi validator has no test of a final halant; there
    the scan emits a group ending in a halant only when the group has
    no full character, which [grp_sanity] rejects, so that
    [label_transform] returns the empty tuple. *)
Theorem halant_final_group_rejected :
  (∀ (label : str) (grps : list str) (j : nat) (pre : str),
     grps !! j = Some (pre ++ Malayalam.halanth) → j + 1 < length grps →
     Malayalam.grp_sanity label grps ≠ Ok true) ∧
  (∀ (label : str) (grps : list str) (j : nat) (pre : str),
     Hindi.scan label 0 [] = Some grps →
     grps !! j = Some (pre ++ Hindi.halanth) →
     Hindi.grp_sanity label grps = false ∧ Hindi.label_transform label = []).
Proof.
  split.
  - intros label grps j pre Hj Hlt. unfold Malayalam.grp_sanity.
    apply (sanity_loop_nonfinal grps pre j grps []); [done|cbn; lia|done|done].
  - intros label grps j pre Hs Hj.
    assert (Hindi.grp_sanity label grps = false) as Hbad.
    { apply (scan_spec (length label)) in Hs as (new & -> & _ & Hall); [|lia].
      rewrite app_nil_l in *.
      destruct (proj1 (Forall_lookup _ _) Hall j _ Hj) as (_ & g & Hwf & Hg).
      apply (grp_sanity_lookup label new j _ Hj).
      rewrite Hg, grp_ok_render by done.
      by apply (render_halant_invalid g pre). }
    split; [done|]. unfold Hindi.label_transform. by rewrite Hs, Hbad.
Qed.

Lemma halant_final_group_rejected_witness :
  Malayalam.grp_sanity [0xD15; 0xD4D; 0xD15]%N [[0xD15; 0xD4D]; [0xD15]]%N ≠ Ok true ∧
  Hindi.grp_sanity [0x915; 0x94D]%N [[0x915; 0x94D]%N] = false ∧
  Hindi.label_transform [0x915; 0x94D]%N = [].
Proof.
  split.
  - apply (proj1 halant_final_group_rejected
             [0xD15; 0xD4D; 0xD15]%N [[0xD15; 0xD4D]; [0xD15]]%N 0 [0xD15%N]).
    + reflexivity.
    + cbn. lia.
  - apply (proj2 halant_final_group_rejected
             [0x915; 0x94D]%N [[0x915; 0x94D]%N] 0 [0x915%N]).
    + vm_compute. reflexivity.
    + reflexivity.
Defined.

(** ** Further properties of the Hindi tokenizer *)

Section hindi_pipeline.
Import Hindi.

Lemma length_slots_any max_grps gs : length (slots max_grps gs) = max_grps.
Proof.
  unfold slots, after. rewrite length_app, length_fmap, length_take.
  case_bool_decide; cbn [length]; rewrite ?length_replicate; lia.
Qed.

Lemma is_h_charset c : is_h c = true → ([c] : str) ∈ get_charset.
Proof.
  intros Hc. destruct (is_h_lookup c Hc) as (_ & _ & Hk).
  unfold get_charset. apply elem_of_app. left.
  by apply (list_elem_of_lookup_2 _ (idx_h c)).
Qed.

Lemma is_f_charset c : is_f c = true → ([c] : str) ∈ get_charset.
Proof.
  intros Hc. destruct (is_f_lookup c Hc) as (_ & _ & Hk).
  unfold get_charset. apply elem_of_app. right. apply elem_of_app. left.
  by apply (list_elem_of_lookup_2 _ (idx_f c)).
Qed.

Lemma is_d_charset c : is_d c = true → ([c] : str) ∈ get_charset.
Proof.
  intros Hc. destruct (is_d_lookup c Hc) as (_ & _ & Hk).
  unfold get_charset. do 2 (apply elem_of_app; right). apply elem_of_app. left.
  by apply (list_elem_of_lookup_2 _ (idx_d c)).
Qed.

Lemma HAL_charset : ([HAL] : str) ∈ get_charset.
Proof.
  unfold get_charset. do 3 (apply elem_of_app; right). apply list_elem_of_singleton.
  reflexivity.
Qed.

Lemma render_charset g :
  well_formed g = true → Forall (λ c, ([c] : str) ∈ get_charset) (render g).
Proof.
  intros Hwf. unfold well_formed, render in *.
  rewrite !andb_true_iff in Hwf. destruct Hwf as [[Hhs Hf] Hds].
  pose proof HAL_charset as HH.
  destruct g as [hs f ds]. cbn [g_halves g_full g_dias] in *.
  repeat apply Forall_app_2.
  - destruct hs as [|c|c1 c2]; cbn [halves_ok render_halves] in *.
    + apply Forall_nil_2.
    + apply Forall_cons_2; [by apply is_h_charset|].
      apply Forall_cons_2; [exact HH|]. apply Forall_nil_2.
    + apply andb_true_iff in Hhs as [H1 H2].
      apply Forall_cons_2; [by apply is_h_charset|].
      apply Forall_cons_2; [exact HH|].
      apply Forall_cons_2; [by apply is_h_charset|].
      apply Forall_cons_2; [exact HH|]. apply Forall_nil_2.
  - destruct f as [f|]; cbn [full_ok render_full] in *; [|apply Forall_nil_2].
    apply Forall_cons_2; [by apply is_f_charset|]. apply Forall_nil_2.
  - destruct ds as [|d|d1 d2]; cbn [dias_ok render_dias] in *.
    + apply Forall_nil_2.
    + apply Forall_cons_2; [by apply is_d_charset|]. apply Forall_nil_2.
    + apply andb_true_iff in Hds as [H1 H2].
      apply Forall_cons_2; [by apply is_d_charset|].
      apply Forall_cons_2; [by apply is_d_charset|]. apply Forall_nil_2.
Qed.

End hindi_pipeline.

Lemma topk2_last_spec : Hindi.topk2_spec Hindi.topk2_last.
Proof.
  intros row Hlen.
  destruct (topk2_first_spec row Hlen)
    as (v0 & v1 & p0 & p1 & Heq & Hne & H0 & H1 & Hle & Hmax).
  unfold Hindi.topk2_last. rewrite Heq.
  case_bool_decide as Hv.
  - subst v1. exists v0, v0, p1, p0. split_and!; try done.
    intros j x Hj1 Hj0. by apply Hmax.
  - by exists v0, v1, p0, p1.
Qed.

(** X1.  [label_transform] either rejects the label (the empty tuple) or
    returns non-empty groups whose concatenation is the label: no
    character is dropped, added or reordered. *)
Theorem label_transform_spells_label (label : str) :
  Hindi.label_transform label = [] ∨
  (concat (Hindi.label_transform label) = label ∧
   Forall (λ grp, grp ≠ []) (Hindi.label_transform label)).
Proof.
  unfold Hindi.label_transform.
  destruct (Hindi.scan label 0 []) as [grps|] eqn:Hs; [|by left].
  destruct (Hindi.grp_sanity label grps); [|by left].
  right. apply (scan_spec (length label)) in Hs as (new & -> & Hcat & Hall); [|lia].
  rewrite app_nil_l. split; [by rewrite Hcat|].
  eapply Forall_impl; [exact Hall|]. by intros g [Hg _].
Qed.

(** X2.  Every group [label_transform] returns is made of at most two
    half-characters (a consonant of the half-character table followed by
    the halant each), then exactly one character of the full-character
    table, then at most two characters of the diacritic table, and two
    diacritics of one group differ. *)
Theorem label_transform_group_shape (label : str) :
  Forall (λ grp, ∃ g, grp = render g ∧ well_formed g = true ∧
                      is_Some (g_full g) ∧ dias_distinct (g_dias g) = true)
    (Hindi.label_transform label).
Proof.
  destruct (label_transform_groups label) as (gs & -> & Hall).
  apply Forall_fmap. eapply Forall_impl; [exact Hall|].
  intros g [Hwf Hv]. exists g. split; [done|]. split; [done|].
  unfold valid in Hv. apply andb_true_iff in Hv as [Hf Hd].
  split; [|done]. by destruct (g_full g).
Qed.

(** X3.  [grp_class_encoder] raises on no group that [label_transform]
    returns, and its targets are classes of real characters: the
    half-character targets are the blank or a consonant (never EOS or
    PAD), the full-character target is a character (never EOS or PAD),
    and the diacritic row has the width of the table, only 0 and 1, at
    most two bits set, and the EOS and PAD bits clear. *)
Theorem grp_class_encoder_on_transformed_groups (label : str) :
  Forall (λ grp, ∃ h2 h1 f d,
            Hindi.grp_class_encoder grp = Ok (h2, h1, f, d) ∧
            (2 ≤ h2 < Z.of_nat (length Hindi.h_c_classes))%Z ∧
            (2 ≤ h1 < Z.of_nat (length Hindi.h_c_classes))%Z ∧
            (2 ≤ f < Z.of_nat (length Hindi.f_c_classes))%Z ∧
            length d = length Hindi.d_classes ∧
            Forall (λ x, x = 0%Z ∨ x = 1%Z) d ∧
            (Hindi.sum_list d ≤ 2)%Z ∧
            d !! Hindi.eos_id = Some 0%Z ∧ d !! Hindi.pad_id = Some 0%Z)
    (Hindi.label_transform label).
Proof.
  destruct (label_transform_groups label) as (gs & -> & Hall).
  apply Forall_fmap. eapply Forall_impl; [exact Hall|].
  intros g Hacc. cbn [compose].
  destruct (accepted_parts g Hacc) as [Hhs Hds].
  destruct (target_slot_ok g Hacc) as (Hh2 & Hh1 & Hf & Hlen & Hbin).
  pose proof (target_h2_pos _ Hhs) as Hp2.
  pose proof (target_h1_pos _ Hhs) as Hp1.
  pose proof (target_f_pos g Hacc) as Hpf.
  unfold target in *. cbn [slot_h2 slot_h1 slot_f slot_d fst snd] in *.
  eexists _, _, _, _. split; [apply grp_class_encoder_render; apply Hacc|].
  split_and!; try lia; try done.
  - apply sum_target_d; [done|]. destruct Hacc as [_ Hv]. unfold valid in Hv.
    by apply andb_true_iff in Hv as [_ Hv].
  - by apply target_d_eos.
  - destruct (g_dias g) as [|d|d1 d2]; cbn [dias_ok target_d] in *.
    + reflexivity.
    + destruct (is_d_lookup d Hds) as (_ & [? _] & _).
      by rewrite list_lookup_insert_ne by (unfold Hindi.pad_id; lia).
    + apply andb_true_iff in Hds as [Hd1 Hd2].
      destruct (is_d_lookup d1 Hd1) as (_ & [? _] & _).
      destruct (is_d_lookup d2 Hd2) as (_ & [? _] & _).
      by rewrite !list_lookup_insert_ne by (unfold Hindi.pad_id; lia).
Qed.

(** X4.  [decode], fed the exact logits of the encoding of any label,
    returns the concatenation of the first [max_grps] groups of the label
    (the empty string for a label [label_transform] rejects), provided
    the two diacritics of each of these groups are in the order of the
    tie-break chain. *)
Theorem decode_encode_prefix
  (active : Z → bool) (topk2 : list Z → list Z * list nat)
  (max_grps : nat) (label : str) :
  active 1%Z = true → active 0%Z = false → Hindi.topk2_spec topk2 →
  forallb tie_break_order (take max_grps (Hindi.label_transform label)) = true →
  ∃ e, Hindi.label_encoder max_grps label = Ok e ∧
       Hindi.decode active topk2 max_grps (Hindi.exact_logits e)
       = Ok [concat (take max_grps (Hindi.label_transform label))].
Proof.
  intros Hon Hoff Htopk Hord.
  destruct (label_transform_groups label) as (gs & Hgs & Hall).
  rewrite Hgs in Hord |- *. rewrite <-fmap_take in Hord |- *.
  assert (Forall accepted (take max_grps gs)) as Hkept by by apply Forall_take.
  assert (Forall (λ g, canonical (g_dias g) = true) (take max_grps gs)) as Hcan.
  { clear -Hkept Hord. induction Hkept as [|g gs' Hg _ IH]; [done|].
    rewrite fmap_cons in Hord. cbn [forallb] in Hord.
    apply andb_true_iff in Hord as [Hg' Hord].
    constructor; [|by apply IH]. by rewrite <-tie_break_order_render. }
  exists (expected max_grps gs). split; [by apply label_encoder_spec|].
  rewrite decode_exact_slots by (done || apply length_slots_any).
  unfold slots. rewrite (decode_slots_targets topk2 Htopk) by done.
  rewrite (decode_slots_after topk2 Htopk). by rewrite bind_Ok.
Qed.

Lemma decode_encode_prefix_witness :
  ∃ e, Hindi.label_encoder 2 [0x915; 0x939; 0x93E; 0x902; 0x928]%N = Ok e ∧
       Hindi.decode Hindi.active_half Hindi.topk2_last 2 (Hindi.exact_logits e)
       = Ok [[0x915; 0x939; 0x93E; 0x902]%N].
Proof.
  apply (decode_encode_prefix Hindi.active_half Hindi.topk2_last 2
           [0x915; 0x939; 0x93E; 0x902; 0x928]%N).
  - reflexivity.
  - reflexivity.
  - apply topk2_last_spec.
  - vm_compute. reflexivity.
Defined.

(** X5.  A label that [label_transform] accepts is written in the
    characters of [get_charset] only. *)
Theorem accepted_label_in_charset (label : str) :
  Hindi.label_transform label ≠ [] →
  Forall (λ c, ([c] : str) ∈ Hindi.get_charset) label.
Proof.
  intros Hne.
  destruct (label_transform_cases label) as [Hnil|Hcat]; [done|].
  destruct (label_transform_groups label) as (gs & Hgs & Hall).
  rewrite <-Hcat, Hgs. clear -Hall.
  induction Hall as [|g gs [Hwf _] _ IH]; [constructor|].
  rewrite fmap_cons. cbn [concat]. apply Forall_app_2; [|exact IH].
  by apply render_charset.
Qed.

Lemma accepted_label_in_charset_witness :
  Forall (λ c, ([c] : str) ∈ Hindi.get_charset) [0x915; 0x94D; 0x937; 0x93E]%N.
Proof.
  apply (accepted_label_in_charset [0x915; 0x94D; 0x937; 0x93E]%N).
  vm_compute. discriminate.
Defined.

(** ** The scan finds the groups a label is made of *)

Section scan_complete.
Import Hindi.

Lemma parse_render g rest :
  accepted g → group_start rest = true → parse (render g ++ rest) = (g, rest).
Proof.
  intros [Hwf Hv] Hrest. unfold well_formed, valid, render in *.
  destruct g as [hs [f|] ds]; cbn [g_halves g_full g_dias andb] in *;
    [|discriminate].
  clear Hv. rewrite !andb_true_iff in Hwf. destruct Hwf as [[Hhs Hf] Hds].
  destruct hs as [|c|c1 c2], ds as [|d|d1 d2], rest as [|r rest];
    cbn [halves_ok full_ok dias_ok group_start] in *.
  all: repeat match goal with
         | H : true = true |- _ => clear H
         | H : _ && _ = true |- _ => apply andb_true_iff in H as [? ?]
         | H : negb _ = true |- _ => apply negb_true_iff in H
         end.
  all: class_facts.
  all: unfold parse, parse_halves, parse_full, parse_dias.
  all: cbn [render_halves render_full render_dias app check_h check_f check_d].
  all: rewrite ?halanth_eq, ?str_eqb_char, ?N.eqb_refl.
  all: repeat first
    [ progress cbn [andb negb check_h check_f check_d]
    | progress rewrite ?halanth_eq, ?str_eqb_char, ?N.eqb_refl,
        ?andb_false_r, ?andb_true_r
    | match goal with
      | H : _ = true |- _ => progress rewrite H
      | H : _ = false |- _ => progress rewrite H
      end
    | progress cbn beta iota zeta ].
  all: reflexivity.
Qed.

Lemma render_length_pos g : accepted g → 0 < length (render g).
Proof.
  intros [_ Hv]. unfold valid, render in *.
  destruct (g_full g); [|discriminate].
  rewrite !length_app. cbn [render_full length]. lia.
Qed.

Lemma group_start_render g rest : accepted g → group_start (render g ++ rest) = true.
Proof.
  intros [Hwf Hv]. unfold well_formed, valid, render in *.
  destruct g as [hs [f|] ds]; cbn [g_halves g_full g_dias andb] in *;
    [|discriminate].
  rewrite !andb_true_iff in Hwf. destruct Hwf as [[Hhs Hf] _].
  destruct hs as [|c|c1 c2];
    cbn [halves_ok full_ok render_halves render_full app group_start] in *.
  all: repeat match goal with
         | H : _ && _ = true |- _ => apply andb_true_iff in H as [? ?]
         end.
  all: class_facts.
  all: repeat match goal with
         | H : _ = false |- _ => progress rewrite H
         end.
  all: reflexivity.
Qed.

Lemma group_start_concat gs :
  Forall accepted gs → group_start (concat (render <$> gs)) = true.
Proof.
  intros [|g gs' Hg _]; [reflexivity|].
  rewrite fmap_cons. cbn [concat]. by apply group_start_render.
Qed.

(** The scan returns the groups a label was put together from. *)
Lemma scan_complete gs : ∀ label idx acc,
  drop idx label = concat (render <$> gs) → Forall accepted gs →
  scan label idx acc = Some (acc ++ (render <$> gs)).
Proof.
  induction gs as [|g gs IH]; intros label idx acc Hdrop Hall;
    rewrite scan_step_eq.
  - cbn in Hdrop. destruct (decide (idx < length label)) as [Hlt|Hge].
    + exfalso. apply (f_equal length) in Hdrop.
      rewrite length_drop in Hdrop. cbn in Hdrop. lia.
    + by rewrite app_nil_r.
  - apply Forall_cons in Hall as [Hg Hall].
    rewrite fmap_cons in Hdrop |- *. cbn [concat] in Hdrop.
    pose proof (render_length_pos g Hg) as Hpos.
    destruct (decide (idx < length label)) as [Hlt|Hge].
    + rewrite scan_group_parse, Hdrop.
      rewrite parse_render by (done || by apply group_start_concat).
      cbn [fst snd].
      destruct (decide (idx = idx + length (render g))) as [|_]; [lia|].
      rewrite (IH label (idx + length (render g)) (acc ++ [render g])).
      * by rewrite <-app_assoc.
      * by rewrite <-drop_drop, Hdrop, drop_app_length.
      * done.
    + exfalso. apply (f_equal length) in Hdrop.
      rewrite length_drop, length_app in Hdrop. lia.
Qed.

Lemma grp_sanity_accepted label gs :
  Forall accepted gs → grp_sanity label (render <$> gs) = true.
Proof.
  induction 1 as [|g gs' [Hwf Hv] _ IH]; [reflexivity|].
  rewrite fmap_cons. cbn [grp_sanity]. by rewrite grp_ok_render, Hv.
Qed.

Lemma label_transform_complete gs :
  Forall accepted gs → label_transform (concat (render <$> gs)) = render <$> gs.
Proof.
  intros Hall. unfold label_transform.
  rewrite (scan_complete gs _ 0 []) by (done || by rewrite drop_0).
  rewrite app_nil_l. by rewrite grp_sanity_accepted.
Qed.

End scan_complete.

(** X6.  A sequence of groups, each made of at most two half-characters,
    one full character and at most two different diacritics, is what
    [label_transform] returns for their concatenation: the scan finds
    the group boundaries again, and the validator accepts. *)
Theorem label_transform_of_groups (gs : list group) :
  Forall (λ g, well_formed g = true ∧ valid g = true) gs →
  Hindi.label_transform (concat (render <$> gs)) = render <$> gs.
Proof. apply label_transform_complete. Qed.

Lemma label_transform_of_groups_witness :
  Hindi.label_transform
    (concat (render <$> [Group (OneHalf 0x915) (Some 0x937) (OneDia 0x93E);
                         Group NoHalf (Some 0x924) NoDia]%N))
  = render <$> [Group (OneHalf 0x915) (Some 0x937) (OneDia 0x93E);
                Group NoHalf (Some 0x924) NoDia]%N.
Proof.
  apply (label_transform_of_groups
           [Group (OneHalf 0x915) (Some 0x937) (OneDia 0x93E);
            Group NoHalf (Some 0x924) NoDia]%N).
  apply Forall_cons_2; [split; vm_compute; reflexivity|].
  apply Forall_cons_2; [split; vm_compute; reflexivity|].
  apply Forall_nil_2.
Defined.

(** X7.  Segmentation is compositional: when [label_transform] accepts
    two labels, it accepts their concatenation, and the groups of the
    concatenation are the groups of the first label followed by the
    groups of the second. *)
Theorem label_transform_app (a b : str) :
  Hindi.label_transform a ≠ [] → Hindi.label_transform b ≠ [] →
  Hindi.label_transform (a ++ b)
  = Hindi.label_transform a ++ Hindi.label_transform b.
Proof.
  intros Ha Hb.
  destruct (label_transform_cases a) as [|Hca]; [done|].
  destruct (label_transform_cases b) as [|Hcb]; [done|].
  destruct (label_transform_groups a) as (gsa & Hgsa & Halla).
  destruct (label_transform_groups b) as (gsb & Hgsb & Hallb).
  rewrite Hgsa, Hgsb in *. rewrite <-Hca, <-Hcb at 1.
  rewrite <-concat_app, <-!fmap_app.
  apply label_transform_complete. by apply Forall_app_2.
Qed.

Lemma label_transform_app_witness :
  Hindi.label_transform ([0x915; 0x94D; 0x937; 0x93E]%N ++ [0x924; 0x94D; 0x930]%N)
  = Hindi.label_transform [0x915; 0x94D; 0x937; 0x93E]%N
    ++ Hindi.label_transform [0x924; 0x94D; 0x930]%N.
Proof.
  apply (label_transform_app [0x915; 0x94D; 0x937; 0x93E]%N [0x924; 0x94D; 0x930]%N).
  - vm_compute. discriminate.
  - vm_compute. discriminate.
Defined.

(** ** The decoder's tie-break chain, and what the validator and the
    encoder refuse *)

Section hindi_edges.
Import Hindi.

Lemma dia_part_both (a b : nat) :
  dia_part [a; b] [1; 1]%Z 0 = of_option KeyError (d_c_label_map a) ∧
  dia_part [a; b] [1; 1]%Z 1 = of_option KeyError (d_c_label_map b).
Proof. split; reflexivity. Qed.

Lemma order_diacritics_special (s t : str) :
  s ∈ [nukta; anusvara; visarga] → t ∈ d_classes →
  order_diacritics s t = order_diacritics t s.
Proof.
  intros Hs Ht.
  assert (forallb (λ s, forallb (λ t,
            str_eqb (order_diacritics s t) (order_diacritics t s)) d_classes)
            [nukta; anusvara; visarga] = true) as Hall
    by (vm_compute; reflexivity).
  rewrite forallb_forall in Hall.
  specialize (Hall s (proj1 (list_elem_of_In _ _) Hs)).
  rewrite forallb_forall in Hall.
  specialize (Hall t (proj1 (list_elem_of_In _ _) Ht)).
  by apply str_eqb_true.
Qed.

Lemma dia_parts_swap (p q : nat) (K : str → result str) :
  d_c_label_map p ∈ [Some nukta; Some anusvara; Some visarga] →
  (d1 ← dia_part [p; q] [1; 1]%Z 0; d2 ← dia_part [p; q] [1; 1]%Z 1;
   K (order_diacritics d1 d2))
  = (d1 ← dia_part [q; p] [1; 1]%Z 0; d2 ← dia_part [q; p] [1; 1]%Z 1;
     K (order_diacritics d1 d2)).
Proof.
  intros Hp.
  destruct (dia_part_both p q) as [-> ->]. destruct (dia_part_both q p) as [-> ->].
  destruct (d_c_label_map p) as [s|] eqn:Hs.
  - assert (s ∈ [nukta; anusvara; visarga]) as Hs'.
    { rewrite !elem_of_cons in Hp. rewrite !elem_of_cons.
      destruct Hp as [[= ->]|[[= ->]|[[= ->]|Hp]]]; auto.
      by apply elem_of_nil in Hp. }
    destruct (d_c_label_map q) as [t|] eqn:Ht; cbn [of_option].
    + rewrite !bind_Ok. f_equal. apply order_diacritics_special; [done|].
      by apply (list_elem_of_lookup_2 _ q).
    + reflexivity.
  - exfalso. rewrite !elem_of_cons in Hp.
    destruct Hp as [?|[?|[?|Hp]]]; try discriminate.
    by apply elem_of_nil in Hp.
Qed.

(** In a group without a full character the counter of full characters
    is never decremented. *)
Lemma sanity_walk_keeps_f_c_count grp n : ∀ i st st',
  (∀ c, c ∈ grp → mem [c] rev_f_c_label_map = false) →
  length grp - i ≤ n →
  sanity_walk grp i st = Some st' → f_c_count st' = f_c_count st.
Proof.
  induction n as [|n IH]; intros i st st' Hno Hn; rewrite sanity_walk_step_eq;
    destruct (decide (i < length grp)) as [Hlt|Hge];
    try lia; try (by intros [= <-]).
  destruct (sanity_branch grp i st) eqn:Hb.
  - intros Hw. apply IH in Hw; [exact Hw|done|lia].
  - exfalso. destruct (lookup_lt_is_Some_2 grp i Hlt) as [c Hc].
    assert (getitem grp i = [c]) as Hg.
    { unfold getitem. by rewrite (drop_S _ _ _ Hc). }
    pose proof (Hno c (list_elem_of_lookup_2 _ _ _ Hc)) as Hf.
    unfold sanity_branch in Hb. rewrite Hg, Hf in Hb. cbn [andb] in Hb.
    repeat match type of Hb with
           | (if ?b then _ else _) = _ => destruct b
           end; discriminate Hb.
  - intros Hw. apply IH in Hw; [exact Hw|done|lia].
  - intros Hw. apply IH in Hw; [exact Hw|done|lia].
  - discriminate.
  - intros Hw. apply IH in Hw; [exact Hw|done|lia].
Qed.

Lemma foldM_raises {A S} (f : S → A → result S) (x : A) (l : list A) :
  x ∈ l → (∀ s, ∃ e, f s x = Raise e) → ∀ s, ∃ e, foldM f s l = Raise e.
Proof.
  intros Hx Hf. induction l as [|a l IH]; intros s.
  - by apply elem_of_nil in Hx.
  - cbn [foldM]. destruct (f s a) as [s'|e] eqn:Hfa.
    + rewrite bind_Ok. apply elem_of_cons in Hx as [->|Hx].
      * destruct (Hf s) as [e He]. congruence.
      * by apply IH.
    + by exists e.
Qed.

End hindi_edges.

(** X8.  When both predicted diacritics are active and one of them is
    the nukta, the anusvara or the visarga, [_decode_grp] gives the same
    result (the same group, or the same exception) for either order of
    the two predictions: the result does not depend on the order in
    which [topk] lists equal values. *)
Theorem decode_grp_prediction_order (h2 h1 f p q : nat) :
  Hindi.d_c_label_map p
    ∈ [Some Hindi.nukta; Some Hindi.anusvara; Some Hindi.visarga] ∨
  Hindi.d_c_label_map q
    ∈ [Some Hindi.nukta; Some Hindi.anusvara; Some Hindi.visarga] →
  Hindi._decode_grp h2 h1 f [p; q] [1; 1]%Z
  = Hindi._decode_grp h2 h1 f [q; p] [1; 1]%Z.
Proof.
  intros Hpq. unfold Hindi._decode_grp. cbn [length].
  destruct (assert _) as [[]|e]; [|reflexivity]. rewrite !bind_Ok.
  destruct (Hindi.half_part h2) as [p2|e]; [|reflexivity]. rewrite !bind_Ok.
  destruct (Hindi.half_part h1) as [p1|e]; [|reflexivity]. rewrite !bind_Ok.
  destruct (of_option KeyError (Hindi.f_c_label_map f)) as [fc|e]; [|reflexivity].
  rewrite !bind_Ok. cbv zeta.
  destruct Hpq as [Hp|Hq].
  - exact (dia_parts_swap p q
      (λ d, Ok (remove Hindi.PAD (remove Hindi.BLANK (p2 ++ p1 ++ fc ++ d)))) Hp).
  - symmetry. exact (dia_parts_swap q p
      (λ d, Ok (remove Hindi.PAD (remove Hindi.BLANK (p2 ++ p1 ++ fc ++ d)))) Hq).
Qed.

Lemma decode_grp_prediction_order_witness :
  Hindi._decode_grp 2 2 26 [2; 15] [1; 1]%Z
  = Hindi._decode_grp 2 2 26 [15; 2] [1; 1]%Z.
Proof.
  apply (decode_grp_prediction_order 2 2 26 2 15).
  right. apply list_elem_of_further, list_elem_of_here.
Defined.

(** X9.  [grp_sanity] returns [False] for every tuple that holds a group
    with no character of the full-character table, the empty group
    included. *)
Theorem grp_sanity_requires_full_character
  (label : str) (grps : list str) (grp : str) :
  grp ∈ grps →
  (∀ c, c ∈ grp → mem [c] Hindi.rev_f_c_label_map = false) →
  Hindi.grp_sanity label grps = false.
Proof.
  intros Hin Hno. apply list_elem_of_lookup in Hin as [j Hj].
  apply (grp_sanity_lookup label grps j grp Hj).
  unfold Hindi.grp_ok.
  destruct (Hindi.sanity_walk grp 0 Hindi.counts0) as [st|] eqn:Hw; [|done].
  apply (sanity_walk_keeps_f_c_count grp (length grp)) in Hw; [|done|lia].
  unfold Hindi.no_full. rewrite Hw. reflexivity.
Qed.

Lemma grp_sanity_requires_full_character_witness :
  Hindi.grp_sanity [0x915; 0x93E; 0x93E]%N [[0x915; 0x93E]; [0x93E]]%N = false.
Proof.
  apply (grp_sanity_requires_full_character _ _ [0x93E]%N).
  - apply list_elem_of_further, list_elem_of_here.
  - intros c ->%list_elem_of_singleton. vm_compute. reflexivity.
Defined.

(** X10.  [grp_class_encoder] raises on every group that holds a
    character outside [get_charset]: no unknown character is encoded or
    skipped. *)
Theorem grp_class_encoder_rejects_unknown_character (grp : str) (c : N) :
  c ∈ grp → ([c] : str) ∉ Hindi.get_charset →
  ∃ e, Hindi.grp_class_encoder grp = Raise e.
Proof.
  intros Hc Hout. unfold Hindi.get_charset in Hout.
  rewrite !elem_of_app, list_elem_of_singleton in Hout.
  assert (mem [c] Hindi.rev_h_c_label_map = false) as Hh.
  { apply not_true_is_false. intros Hm.
    apply (proj1 (mem_rev_dict [c] Hindi.h_c_classes)) in Hm. tauto. }
  assert (mem [c] Hindi.rev_f_c_label_map = false) as Hf.
  { apply not_true_is_false. intros Hm.
    apply (proj1 (mem_rev_dict [c] Hindi.f_c_classes)) in Hm. tauto. }
  assert (mem [c] Hindi.rev_d_label_map = false) as Hd.
  { apply not_true_is_false. intros Hm.
    apply (proj1 (mem_rev_dict [c] Hindi.d_classes)) in Hm. tauto. }
  assert (str_eqb [c] Hindi.halanth = false) as Hhal.
  { apply not_true_is_false. intros Hm%str_eqb_true. tauto. }
  apply list_elem_of_lookup in Hc as [i Hi].
  destruct (foldM_raises (Hindi.encode_char grp) (i, [c]) (Hindi.enumerate grp))
    with (s := Hindi.EncState (Z.of_nat Hindi.blank_id) (Z.of_nat Hindi.blank_id)
                 (-1) (replicate (length Hindi.d_classes) 0%Z) 0) as [e He].
  - apply elem_of_lookup_imap. by exists i, c.
  - intros st. exists Exception. unfold Hindi.encode_char.
    rewrite Hh, Hf, Hd, Hhal. reflexivity.
  - exists e. unfold Hindi.grp_class_encoder. rewrite He. reflexivity.
Qed.

Lemma grp_class_encoder_rejects_unknown_character_witness :
  ∃ e, Hindi.grp_class_encoder [0x915; 0x41]%N = Raise e.
Proof.
  apply (grp_class_encoder_rejects_unknown_character [0x915; 0x41]%N 0x41%N).
  - apply list_elem_of_further, list_elem_of_here.
  - vm_compute. intros H. repeat (apply elem_of_cons in H as [H|H]; [discriminate H|]).
    by apply elem_of_nil in H.
Defined.

(** ** The Malayalam validator on single groups *)

Section malayalam_walk.
Import Malayalam MalayalamFacts.

Lemma malayalam_walk_step_eq grp i st :
  sanity_walk grp i st =
  if decide (i < length grp) then
    match sanity_branch grp i st with
    | BChilluBad => None
    | BChilluAlone =>
        sanity_walk grp (i + 1)
          (Counts (h_c_count st) (f_c_count st - 1) (d_c_count st) (d_seen st))
    | BHalf =>
        sanity_walk grp (i + 2)
          (Counts (h_c_count st - 1) (f_c_count st) (d_c_count st) (d_seen st))
    | BFull =>
        sanity_walk grp (i + 1)
          (Counts (h_c_count st) (f_c_count st - 1) (d_c_count st) (d_seen st))
    | BDia =>
        sanity_walk grp (i + 1)
          (Counts (h_c_count st) (f_c_count st) (d_c_count st - 1)
             (d_seen st ++ [getitem grp i]))
    | BDuplicate => None
    | BSignUHalanth => sanity_walk grp (i + 2) st
    | BReject => None
    end
  else Some st.
Proof.
  simp sanity_walk. destruct (decide (i < length grp)); simpl; [|done].
  destruct (sanity_branch grp i st); simpl; try done; by simp sanity_walk.
Qed.

Lemma malayalam_d_table c :
  mem [c] rev_d_label_map = true → d_facts c = true.
Proof. apply table_forall. vm_compute. reflexivity. Qed.

(** [check_group] answers [False] whenever the walk of the group does. *)
Lemma check_group_walk_None grps grp :
  grp ≠ [] → sanity_walk grp 0 counts0 = None →
  check_group grps grp = Ok (Return false).
Proof.
  intros Hne Hw. unfold check_group.
  rewrite (bool_decide_false _ Hne), bind_Ok, Hw.
  by destruct (_ && _).
Qed.

Lemma walk_chillu_bad c x tail :
  ([c] : str) ∈ chillaksharam → sanity_walk (c :: x :: tail) 0 counts0 = None.
Proof.
  intros Hc. rewrite malayalam_walk_step_eq. cbn [length].
  destruct (decide (0 < S (S (length tail)))) as [_|?]; [|lia].
  unfold sanity_branch. cbn [getitem drop take length].
  rewrite (bool_decide_true _ Hc).
  rewrite (bool_decide_false (S (S (length tail)) = 1)) by lia.
  reflexivity.
Qed.

Lemma walk_chillu_alone c :
  ([c] : str) ∈ chillaksharam →
  sanity_walk [c] 0 counts0 = Some (Counts 3 0 3 []).
Proof.
  intros Hc. rewrite malayalam_walk_step_eq. cbn [length].
  destruct (decide (0 < 1)) as [_|?]; [|lia].
  unfold sanity_branch. cbn [getitem drop take length].
  rewrite (bool_decide_true _ Hc).
  rewrite (bool_decide_true (1 = 1)) by done. cbn [negb].
  rewrite malayalam_walk_step_eq. cbn [length Nat.add].
  destruct (decide (1 < 1)) as [?|_]; [lia|]. reflexivity.
Qed.

Lemma walk_repeated_diacritic f d tail :
  mem [f] rev_f_c_label_map = true → ([f] : str) ∉ chillaksharam →
  mem [d] rev_d_label_map = true →
  sanity_walk (f :: d :: d :: tail) 0 counts0 = None.
Proof.
  intros Hf Hfc Hd.
  pose proof (malayalam_d_table d Hd) as Hfacts. unfold d_facts, is_chillu in Hfacts.
  rewrite !andb_true_iff, !negb_true_iff in Hfacts.
  destruct Hfacts as [[Hdh Hdhc] Hdc].
  assert (str_eqb halanth [d] = false) as Hhd.
  { apply not_true_is_false. intros [= Heq]%str_eqb_true.
    rewrite <-Heq in Hdh. discriminate Hdh. }
  apply bool_decide_eq_false in Hdc.
  (* the full character *)
  rewrite malayalam_walk_step_eq. cbn [length].
  destruct (decide (0 < S (S (S (length tail))))) as [_|?]; [|lia].
  unfold sanity_branch at 1. cbn [getitem drop take length Nat.add].
  rewrite (bool_decide_false _ Hfc), Hhd, Hf.
  rewrite andb_false_r. cbn [andb counts0 f_c_count h_c_count d_c_count d_seen].
  rewrite (bool_decide_true (0 < 1)%Z) by lia.
  (* the diacritic *)
  rewrite malayalam_walk_step_eq. cbn [length].
  destruct (decide (1 < S (S (S (length tail))))) as [_|?]; [|lia].
  unfold sanity_branch at 1. cbn [getitem drop take length Nat.add].
  rewrite take_0, (bool_decide_false _ Hdc), Hhd, Hd.
  rewrite andb_false_r. cbn [andb f_c_count h_c_count d_c_count d_seen].
  rewrite (bool_decide_false (0 < 1 - 1)%Z) by lia. rewrite andb_false_r.
  rewrite (bool_decide_true (0 < 3)%Z) by lia.
  rewrite (bool_decide_false (([d] : str) ∈ [])) by apply not_elem_of_nil.
  cbn [andb negb].
  (* the diacritic again *)
  rewrite malayalam_walk_step_eq. cbn [length].
  destruct (decide (2 < S (S (S (length tail))))) as [_|?]; [|lia].
  unfold sanity_branch at 1. cbn [getitem drop take length Nat.add app].
  rewrite ?take_0, (bool_decide_false _ Hdc), Hdhc, Hd.
  rewrite !andb_false_r. cbn [andb f_c_count h_c_count d_c_count d_seen].
  rewrite (bool_decide_true (0 < 3 - 1)%Z) by lia.
  rewrite (bool_decide_true (([d] : str) ∈ [[d]])) by apply list_elem_of_here.
  reflexivity.
Qed.

End malayalam_walk.

(** X11.  In the Malayalam validator a chillaksharam is a group of its
    own: a tuple whose first group starts with a chillaksharam and goes
    on is rejected, and the tuple of one chillaksharam alone is
    accepted. *)
Theorem chillaksharam_stands_alone
  (label : str) (c x : N) (tail : str) (rest : list str) :
  ([c] : str) ∈ Malayalam.chillaksharam →
  Malayalam.grp_sanity label ((c :: x :: tail) :: rest) = Ok false ∧
  Malayalam.grp_sanity label [[c]] = Ok true.
Proof.
  intros Hc. unfold Malayalam.grp_sanity. cbn [Malayalam.sanity_loop]. split.
  - rewrite check_group_walk_None; [reflexivity|done|by apply walk_chillu_bad].
  - unfold Malayalam.check_group.
    rewrite (bool_decide_false (([c] : str) = [])) by done. rewrite bind_Ok.
    cbn [length take Nat.sub].
    rewrite (bool_decide_false (([c] : str) ∈ [])) by apply not_elem_of_nil.
    rewrite andb_false_r, walk_chillu_alone by done.
    reflexivity.
Qed.

Lemma chillaksharam_stands_alone_witness :
  Malayalam.grp_sanity [] [[0xD7A; 0xD3E]%N] = Ok false ∧
  Malayalam.grp_sanity [] [[0xD7A]%N] = Ok true.
Proof.
  apply (chillaksharam_stands_alone [] 0xD7A%N 0xD3E%N [] []).
  apply list_elem_of_here.
Defined.

(** X12.  The Malayalam validator rejects a tuple whose first group is a
    full character followed by the same diacritic twice, whatever comes
    after in the group or in the tuple. *)
Theorem malayalam_rejects_repeated_diacritic
  (label : str) (f d : N) (tail : str) (rest : list str) :
  mem [f] Malayalam.rev_f_c_label_map = true →
  ([f] : str) ∉ Malayalam.chillaksharam →
  mem [d] Malayalam.rev_d_label_map = true →
  Malayalam.grp_sanity label ((f :: d :: d :: tail) :: rest) = Ok false.
Proof.
  intros Hf Hfc Hd. unfold Malayalam.grp_sanity. cbn [Malayalam.sanity_loop].
  rewrite check_group_walk_None; [reflexivity|done|].
  by apply walk_repeated_diacritic.
Qed.

Lemma malayalam_rejects_repeated_diacritic_witness :
  Malayalam.grp_sanity [] [[0xD15; 0xD3E; 0xD3E]%N] = Ok false.
Proof.
  apply (malayalam_rejects_repeated_diacritic [] 0xD15%N 0xD3E%N [] []).
  - vm_compute. reflexivity.
  - vm_compute. intros H.
    repeat (apply elem_of_cons in H as [H|H]; [discriminate H|]).
    by apply elem_of_nil in H.
  - vm_compute. reflexivity.
Defined.

(** ** The Malayalam scan *)

Lemma getitem_slice (l : str) i : getitem l i = slice l i (i + 1).
Proof. unfold getitem, slice. f_equal. lia. Qed.

Lemma slice_nil (l : str) a : slice l a a = [].
Proof. unfold slice. by rewrite Nat.sub_diag. Qed.

Lemma take_plus {A} (l : list A) n m :
  take (n + m) l = take n l ++ take m (drop n l).
Proof.
  revert l. induction n as [|n IH]; intros [|x l]; cbn [Nat.add take drop app];
    rewrite ?take_nil; [done..|]. by rewrite IH.
Qed.

Lemma slice_app (l : str) a b c :
  a ≤ b → b ≤ c → slice l a b ++ slice l b c = slice l a c.
Proof.
  intros Hab Hbc. unfold slice.
  replace (c - a) with ((b - a) + (c - b)) by lia.
  rewrite take_plus, drop_drop. by replace (a + (b - a)) with b by lia.
Qed.

Section malayalam_scan.
Import Malayalam MalayalamFacts.

Lemma list_forall_char (cl : list str) (p : N → bool) (c : N) :
  forallb (λ s, match s with [c] => p c | _ => true end) cl = true →
  ([c] : str) ∈ cl → p c = true.
Proof.
  intros Hall Hc. rewrite forallb_forall in Hall.
  apply list_elem_of_In in Hc. exact (Hall _ Hc).
Qed.

Lemma malayalam_scan_step_eq label idx grps :
  scan label idx grps =
  if decide (idx < length label) then
    if bool_decide (getitem label idx ∈ chillaksharam)
    then scan label (idx + 1) (add_group grps (getitem label idx))
    else if decide (idx = (scan_group label idx).1) then None
         else scan label (scan_group label idx).1
                (add_group grps (scan_group label idx).2)
  else Some grps.
Proof.
  simp scan. destruct (decide (idx < length label)); simpl; [|done].
  destruct (bool_decide _); simpl; [by simp scan|].
  destruct (decide (idx = _)); simpl; [done|]. by simp scan.
Qed.

Lemma scan_group_slice label idx :
  idx ≤ (scan_group label idx).1 ∧
  (scan_group label idx).2 = slice label idx (scan_group label idx).1.
Proof.
  unfold scan_group. repeat case_match; simplify_eq; cbn [fst snd].
  all: split; [lia|].
  all: rewrite ?getitem_slice, ?app_nil_l, ?slice_nil.
  all: repeat rewrite slice_app by lia.
  all: try reflexivity.
Qed.

Lemma slice_drop_app (l : str) a b : a ≤ b → slice l a b ++ drop b l = drop a l.
Proof.
  intros Hab. unfold slice.
  replace (drop b l) with (drop (b - a) (drop a l))
    by (rewrite drop_drop; f_equal; lia).
  apply take_drop.
Qed.

Lemma slice_nonempty (l : str) a b : a < b → a < length l → slice l a b ≠ [].
Proof.
  intros Hab Ha Hnil. apply (f_equal length) in Hnil.
  unfold slice in Hnil. rewrite length_take, length_drop in Hnil.
  cbn in Hnil. lia.
Qed.

(** What the scan returns: the groups found so far, followed by
    non-empty groups that spell the rest of the label. *)
Lemma malayalam_scan_spec n : ∀ label idx acc grps,
  length label - idx ≤ n →
  scan label idx acc = Some grps →
  ∃ new, grps = acc ++ new ∧ concat new = drop idx label ∧
         Forall (λ g, g ≠ []) new.
Proof.
  induction n as [|n IH]; intros label idx acc grps Hn;
    rewrite malayalam_scan_step_eq.
  - destruct (decide (idx < length label)); [lia|].
    intros [= <-]. exists []. rewrite app_nil_r, drop_ge by lia. done.
  - destruct (decide (idx < length label)) as [Hlt|Hge]; cycle 1.
    { intros [= <-]. exists []. rewrite app_nil_r, drop_ge by lia. done. }
    assert (∀ idx', idx < idx' →
              scan label idx' (add_group acc (slice label idx idx')) = Some grps →
              ∃ new, grps = acc ++ new ∧ concat new = drop idx label ∧
                     Forall (λ g, g ≠ []) new) as Hstep.
    { intros idx' Hlt' Hs. apply IH in Hs as (new & -> & Hcat & Hall); [|lia].
      pose proof (slice_nonempty label idx idx' Hlt' Hlt) as Hg.
      unfold add_group. rewrite (bool_decide_false _ Hg).
      exists (slice label idx idx' :: new). split; [by rewrite <-app_assoc|].
      split; [|by constructor]. cbn [concat].
      rewrite Hcat. apply slice_drop_app. lia. }
    destruct (bool_decide (getitem label idx ∈ chillaksharam)).
    + rewrite getitem_slice. apply Hstep. lia.
    + destruct (scan_group_slice label idx) as [Hle Hsl].
      destruct (decide (idx = (scan_group label idx).1)) as [|Hne]; [done|].
      rewrite Hsl. apply Hstep. lia.
Qed.

Lemma check_group_total grps grp : grp ≠ [] → ∃ v, check_group grps grp = Ok v.
Proof.
  intros Hne. unfold check_group. rewrite (bool_decide_false _ Hne), bind_Ok.
  destruct (_ && _); [by eexists|].
  destruct (sanity_walk grp 0 counts0) as [st|]; [|by eexists].
  destruct (bool_decide _); [|by eexists].
  destruct (str_eqb _ _); by eexists.
Qed.

Lemma sanity_loop_total grps rest :
  Forall (λ g, g ≠ []) rest → ∃ b, sanity_loop grps rest = Ok b.
Proof.
  induction 1 as [|g rest Hg _ IH]; cbn [sanity_loop]; [by eexists|].
  destruct (check_group_total grps g Hg) as [v ->]. rewrite bind_Ok.
  destruct v; [exact IH|by eexists].
Qed.

Lemma mark_table c : ([c] : str) ∈ ank ++ chinh → mark_facts c = true.
Proof. apply list_forall_char. vm_compute. reflexivity. Qed.

Lemma d_no_full_table c : mem [c] rev_d_label_map = true → d_no_full c = true.
Proof. apply table_forall. vm_compute. reflexivity. Qed.

Lemma final_virama_table c :
  mem [c] rev_h_c_label_map = true → final_virama_ok c = true.
Proof. apply table_forall. vm_compute. reflexivity. Qed.

(** The scan step at a digit or punctuation mark that a diacritic
    follows takes the mark alone. *)
Lemma scan_group_mark a d rest :
  ([a] : str) ∈ ank ++ chinh → mem [d] rev_d_label_map = true →
  scan_group (a :: d :: rest) 0 = (1, [a]).
Proof.
  intros Ha Hd. pose proof (mark_table a Ha) as Hm.
  unfold mark_facts, is_chillu in Hm.
  apply andb_true_iff in Hm as [Hf Hc]. 
  pose proof (malayalam_d_table d Hd) as Hfacts. unfold d_facts in Hfacts.
  rewrite !andb_true_iff, !negb_true_iff in Hfacts.
  destruct Hfacts as [[Hdh _] _].
  assert (str_eqb [d] halanth = false) as Hhd.
  { apply not_true_is_false. intros [= Heq]%str_eqb_true.
    rewrite Heq in Hdh. discriminate Hdh. }
  assert (_check_h_c (a :: d :: rest) 0 = false) as Hch.
  { unfold _check_h_c. cbn [getitem drop take length Nat.add].
    by rewrite take_0, Hhd, andb_false_r. }
  assert (_check_f_c (a :: d :: rest) 0 = true) as Hcf.
  { unfold _check_f_c. cbn [getitem drop take length Nat.add].
    rewrite take_0, Hhd, Hf. rewrite bool_decide_true by lia.
    cbn [negb andb]. by rewrite orb_true_r. }
  unfold scan_group. rewrite Hch. cbn beta iota zeta. rewrite Hcf.
  cbn [getitem drop take]. rewrite Hc, (bool_decide_true _ Ha).
  cbn [andb negb]. rewrite andb_false_r. reflexivity.
Qed.

(** The scan step at a diacritic consumes nothing. *)
Lemma scan_group_diacritic a d rest :
  mem [d] rev_d_label_map = true →
  scan_group (a :: d :: rest) 1 = (1, []).
Proof.
  intros Hd.
  pose proof (malayalam_d_table d Hd) as Hfacts. unfold d_facts in Hfacts.
  rewrite !andb_true_iff, !negb_true_iff in Hfacts.
  destruct Hfacts as [[_ Hh] _].
  pose proof (d_no_full_table d Hd) as Hf. unfold d_no_full in Hf.
  apply negb_true_iff in Hf.
  assert (_check_h_c (a :: d :: rest) 1 = false) as Hch.
  { unfold _check_h_c. cbn [getitem drop take length Nat.add].
    by rewrite take_0, Hh, !andb_false_r. }
  assert (_check_f_c (a :: d :: rest) 1 = false) as Hcf.
  { unfold _check_f_c. cbn [getitem drop take length Nat.add].
    by rewrite take_0, Hf, andb_false_r. }
  unfold scan_group. rewrite Hch. cbn beta iota zeta. rewrite Hcf.
  cbn [andb]. rewrite andb_false_r. reflexivity.
Qed.

End malayalam_scan.

(** X13.  The Malayalam [label_transform] raises on no label; it returns
    the empty tuple, or non-empty groups whose concatenation is the
    label. *)
Theorem malayalam_label_transform_spells_label (label : str) :
  ∃ grps, Malayalam.label_transform label = Ok grps ∧
          (grps = [] ∨ (concat grps = label ∧ Forall (λ g, g ≠ []) grps)).
Proof.
  unfold Malayalam.label_transform.
  destruct (Malayalam.scan label 0 []) as [grps|] eqn:Hs; [|by exists []; auto].
  apply (malayalam_scan_spec (length label)) in Hs as (new & -> & Hcat & Hall);
    [|lia].
  rewrite app_nil_l. unfold Malayalam.grp_sanity.
  destruct (sanity_loop_total new new Hall) as [b ->]. rewrite bind_Ok.
  destruct b; [|by exists []; auto].
  exists new. split; [done|]. right. by rewrite Hcat.
Qed.

(** X14.  In Malayalam a digit or punctuation mark takes no diacritic:
    [label_transform] returns the empty tuple for every label that
    starts with a character of [ank] or [chinh] followed by a
    diacritic. *)
Theorem malayalam_mark_takes_no_diacritic (a d : N) (rest : str) :
  ([a] : str) ∈ Malayalam.ank ++ Malayalam.chinh →
  mem [d] Malayalam.rev_d_label_map = true →
  Malayalam.label_transform (a :: d :: rest) = Ok [].
Proof.
  intros Ha Hd. unfold Malayalam.label_transform.
  assert (Malayalam.scan (a :: d :: rest) 0 [] = None) as ->; [|done].
  pose proof (mark_table a Ha) as Hm.
  unfold MalayalamFacts.mark_facts, MalayalamFacts.is_chillu in Hm.
  apply andb_true_iff in Hm as [_ Hac]. apply negb_true_iff in Hac.
  pose proof (malayalam_d_table d Hd) as Hfacts.
  unfold MalayalamFacts.d_facts, MalayalamFacts.is_chillu in Hfacts.
  rewrite !andb_true_iff, !negb_true_iff in Hfacts.
  destruct Hfacts as [_ Hdc].
  rewrite malayalam_scan_step_eq. cbn [length].
  destruct (decide (0 < S (S (length rest)))) as [_|?]; [|lia].
  rewrite scan_group_mark by done. cbn [fst snd].
  change (getitem (a :: d :: rest) 0) with ([a] : str). rewrite Hac.
  destruct (decide (0 = 1)) as [?|_]; [lia|].
  rewrite malayalam_scan_step_eq. cbn [length].
  destruct (decide (1 < S (S (length rest)))) as [_|?]; [|lia].
  rewrite scan_group_diacritic by done. cbn [fst snd].
  replace (getitem (a :: d :: rest) 1) with ([d] : str)
    by (unfold getitem; cbn [drop take]; by rewrite take_0).
  rewrite Hdc. by destruct (decide (1 = 1)).
Qed.

Lemma malayalam_mark_takes_no_diacritic_witness :
  Malayalam.label_transform [0xD67; 0xD3E; 0xD15]%N = Ok [].
Proof.
  apply (malayalam_mark_takes_no_diacritic 0xD67%N 0xD3E%N [0xD15%N]).
  - do 1 apply list_elem_of_further. apply list_elem_of_here.
  - vm_compute. reflexivity.
Defined.

(** X15.  Malayalam allows the word-final virama: for every consonant of
    the half-character table, the label of the consonant followed by the
    halant is accepted as one group. *)
Theorem malayalam_accepts_final_virama (c : N) :
  mem [c] Malayalam.rev_h_c_label_map = true →
  Malayalam.label_transform ([c] ++ Malayalam.halanth)
  = Ok [[c] ++ Malayalam.halanth].
Proof.
  intros Hc%final_virama_table. unfold MalayalamFacts.final_virama_ok in Hc.
  change ([c] ++ Malayalam.halanth) with [c; 0xD4D%N].
  destruct (Malayalam.label_transform [c; 0xD4D%N])
    as [[|[|c' [|h [|? ?]]] [|? ?]]|]; try discriminate Hc.
  apply andb_true_iff in Hc as [Hc' Hh].
  apply N.eqb_eq in Hc', Hh. by subst.
Qed.

Lemma malayalam_accepts_final_virama_witness :
  Malayalam.label_transform ([0xD15%N] ++ Malayalam.halanth)
  = Ok [[0xD15%N] ++ Malayalam.halanth].
Proof.
  apply (malayalam_accepts_final_virama 0xD15%N). vm_compute. reflexivity.
Defined.

(** ** Where the round trip loses or moves a diacritic *)

Section lossy_decoding.
Import Hindi.
Context (topk2 : list Z → list Z * list nat) (Htopk : topk2_spec topk2).

Lemma order_diacritics_not_canonical a b :
  canonical (TwoDias a b) = false → a ≠ b →
  (order_diacritics [a] [b] = [b; a] ∧ order_diacritics [b] [a] = [b; a]) ∨
  (order_diacritics [a] [b] = [a] ∧ order_diacritics [b] [a] = [b]).
Proof.
  unfold canonical, order_diacritics, nukta, anusvara, visarga.
  rewrite !contains_char. fold NUKTA ANUSVARA VISARGA.
  intros Hc Hne.
  destruct (a =? NUKTA)%N eqn:Ha; [done|].
  destruct (b =? NUKTA)%N eqn:Hb; [by left|].
  destruct (a =? ANUSVARA)%N eqn:Ha'.
  { apply N.eqb_eq in Ha'. subst a.
    rewrite (neq_eqb_r _ _ Hne). by left. }
  destruct (b =? ANUSVARA)%N eqn:Hb'; [done|].
  destruct (a =? VISARGA)%N eqn:Ha''.
  { apply N.eqb_eq in Ha''. subst a.
    rewrite (neq_eqb_r _ _ Hne). by left. }
  rewrite Hc. by right.
Qed.

(** [_decode_grp] on the targets of a group, given what the two
    diacritic strings are put together to. *)
Lemma decode_slot_with g ds' dm dp s1 s2 :
  accepted g → accepted (Group (g_halves g) (g_full g) ds') →
  topk2 (target_d (g_dias g)) = (dm, dp) →
  length dp = length dm → length dm = 2 →
  dia_part dp dm 0 = Ok s1 → dia_part dp dm 1 = Ok s2 →
  order_diacritics s1 s2 = render_dias ds' →
  decode_slot topk2 (target g) = Ok (render (Group (g_halves g) (g_full g) ds')).
Proof.
  intros [Hwf Hv] [Hwf' _] Htk Hl1 Hl2 Hs1 Hs2 Ho.
  pose proof (render_no_bracket _ Hwf') as Hnb. revert Hnb.
  unfold decode_slot, target, render, well_formed, valid in *.
  cbn [slot_h2 slot_h1 slot_f slot_d fst snd g_halves g_full g_dias].
  apply andb_true_iff in Hwf as [Hwf Hds]. apply andb_true_iff in Hwf as [Hhs Hf].
  rewrite Htk. cbn [fst snd]. unfold _decode_grp.
  rewrite (bool_decide_true _ Hl1), (bool_decide_true _ Hl2).
  cbn [andb assert]. rewrite bind_Ok.
  destruct (g_full g) as [f|]; [|done]. cbn [full_ok target_f render_full] in *.
  destruct (is_f_lookup f Hf) as (_ & _ & Hlf).
  intros Hnb.
  destruct (g_halves g) as [|c|c1 c2];
    cbn [halves_ok target_h2 target_h1 render_halves] in *; rewrite !Nat2Z.id.
  - rewrite half_part_blank, !bind_Ok, Hlf. cbn [of_option].
    rewrite bind_Ok, Hs1, bind_Ok, Hs2, bind_Ok, Ho.
    cbn [app] in *. by rewrite remove_sentinels.
  - rewrite half_part_blank, bind_Ok, (half_part_idx c Hhs), bind_Ok, Hlf.
    cbn [of_option].
    rewrite bind_Ok, Hs1, bind_Ok, Hs2, bind_Ok, Ho.
    cbn [app] in *. by rewrite remove_sentinels.
  - apply andb_true_iff in Hhs as [Hc1 Hc2].
    rewrite (half_part_idx c1 Hc1), bind_Ok, (half_part_idx c2 Hc2), bind_Ok, Hlf.
    cbn [of_option].
    rewrite bind_Ok, Hs1, bind_Ok, Hs2, bind_Ok, Ho.
    cbn [app] in *. by rewrite remove_sentinels.
Qed.

Lemma accepted_with_dias g ds' :
  accepted g → dias_ok ds' = true → dias_distinct ds' = true →
  accepted (Group (g_halves g) (g_full g) ds').
Proof.
  intros [Hwf Hv] Hok Hdis. unfold accepted, well_formed, valid in *.
  cbn [g_halves g_full g_dias].
  rewrite !andb_true_iff in *. tauto.
Qed.

(** Every validated group is decoded from its targets to a validated
    group with the same half- and full-characters. *)
Lemma decode_slot_any g :
  accepted g →
  ∃ g', decoded_group g g' ∧
        decode_slot topk2 (target g) = Ok (render g') ∧
        contains EOS (render g') = false.
Proof.
  intros Hacc. destruct (canonical (g_dias g)) eqn:Hcan.
  - exists g. destruct (decode_slot_target topk2 Htopk g Hacc Hcan) as [Hd He].
    split; [|done]. unfold decoded_group, decoded_dias. by rewrite Hcan.
  - destruct (accepted_parts g Hacc) as [_ Hds].
    pose proof Hacc as [_ Hv]. unfold valid in Hv.
    apply andb_true_iff in Hv as [_ Hdis].
    destruct (g_dias g) as [|d|d1 d2] eqn:Hg; [done..|].
    cbn [dias_ok dias_distinct] in *.
    apply andb_true_iff in Hds as [Hd1 Hd2].
    pose proof Hdis as Hdis'. apply negb_true_iff, N.eqb_neq in Hdis'.
    destruct (is_d_lookup d1 Hd1) as (_ & [_ Hk1] & Hl1).
    destruct (is_d_lookup d2 Hd2) as (_ & [_ Hk2] & Hl2).
    assert (idx_d d1 ≠ idx_d d2) as Hk by (intros ?; by apply Hdis', idx_d_inj).
    assert (dias_distinct (TwoDias d2 d1) = true) as Hswap.
    { cbn [dias_distinct]. apply negb_true_iff, N.eqb_neq. congruence. }
    assert (∀ ds', decoded_dias (TwoDias d1 d2) ds' →
              dias_ok ds' = true → dias_distinct ds' = true →
              (topk2 (target_d (TwoDias d1 d2)) = ([1; 1]%Z, [idx_d d1; idx_d d2]) →
               order_diacritics [d1] [d2] = render_dias ds') →
              (topk2 (target_d (TwoDias d1 d2)) = ([1; 1]%Z, [idx_d d2; idx_d d1]) →
               order_diacritics [d2] [d1] = render_dias ds') →
              ∃ g', decoded_group g g' ∧
                    decode_slot topk2 (target g) = Ok (render g') ∧
                    contains EOS (render g') = false) as Hbuild.
    { intros ds' Hdec Hok' Hdis'' Ho12 Ho21.
      pose proof (accepted_with_dias g ds' Hacc Hok' Hdis'') as Hacc'.
      exists (Group (g_halves g) (g_full g) ds').
      split.
      { unfold decoded_group. cbn [g_halves g_full g_dias]. rewrite Hg.
        split_and!; [exact Hacc|exact Hacc'|reflexivity|reflexivity|exact Hdec]. }
      split; [|apply contains_absent, render_no_bracket, Hacc'].
      cbn [target_d] in Ho12, Ho21.
      destruct (topk_two topk2 Htopk _ _ Hk Hk1 Hk2) as [Ht|Ht].
      - apply (decode_slot_with g ds' [1; 1]%Z [idx_d d1; idx_d d2] [d1] [d2]).
        + exact Hacc.
        + exact Hacc'.
        + rewrite Hg. exact Ht.
        + reflexivity.
        + reflexivity.
        + apply (dia_part_on _ _ 0 (idx_d d1)); [reflexivity|reflexivity|exact Hl1].
        + apply (dia_part_on _ _ 1 (idx_d d2)); [reflexivity|reflexivity|exact Hl2].
        + exact (Ho12 Ht).
      - apply (decode_slot_with g ds' [1; 1]%Z [idx_d d2; idx_d d1] [d2] [d1]).
        + exact Hacc.
        + exact Hacc'.
        + rewrite Hg. exact Ht.
        + reflexivity.
        + reflexivity.
        + apply (dia_part_on _ _ 0 (idx_d d2)); [reflexivity|reflexivity|exact Hl2].
        + apply (dia_part_on _ _ 1 (idx_d d1)); [reflexivity|reflexivity|exact Hl1].
        + exact (Ho21 Ht). }
    destruct (order_diacritics_not_canonical d1 d2 Hcan Hdis') as [[Ho1 Ho2]|[Ho1 Ho2]].
    + apply (Hbuild (TwoDias d2 d1)).
      * unfold decoded_dias. rewrite Hcan. left. reflexivity.
      * cbn [dias_ok]. rewrite Hd2, Hd1. reflexivity.
      * exact Hswap.
      * intros _. exact Ho1.
      * intros _. exact Ho2.
    + destruct (topk_two topk2 Htopk _ _ Hk Hk1 Hk2) as [Ht|Ht].
      * apply (Hbuild (OneDia d1)).
        -- unfold decoded_dias. rewrite Hcan. right. left. reflexivity.
        -- exact Hd1.
        -- reflexivity.
        -- intros _. exact Ho1.
        -- cbn [target_d]. rewrite Ht. intros Heq.
           injection Heq as Heq _. exfalso. exact (Hk Heq).
      * apply (Hbuild (OneDia d2)).
        -- unfold decoded_dias. rewrite Hcan. right. right. reflexivity.
        -- exact Hd2.
        -- reflexivity.
        -- cbn [target_d]. rewrite Ht. intros Heq.
           injection Heq as Heq _. exfalso. apply Hk. congruence.
        -- intros _. exact Ho2.
Qed.

(** The decoding loop over the targets of validated groups. *)
Lemma decode_slots_any gs : ∀ rest acc,
  Forall accepted gs →
  ∃ gs', Forall2 decoded_group gs gs' ∧
         decode_slots topk2 ((target <$> gs) ++ rest) acc
         = decode_slots topk2 rest (acc ++ concat (render <$> gs')).
Proof.
  induction gs as [|g gs IH]; intros rest acc Hall.
  - exists []. split; [constructor|]. cbn. by rewrite app_nil_r.
  - apply Forall_cons in Hall as [Hg Hall].
    destruct (decode_slot_any g Hg) as (g' & Hdec & Hd & He).
    destruct (IH rest (acc ++ render g') Hall) as (gs' & Hall' & Heq).
    exists (g' :: gs'). split; [by constructor|].
    rewrite !fmap_cons. cbn [app decode_slots concat].
    rewrite Hd, bind_Ok, He, Heq. by rewrite app_assoc.
Qed.

Lemma decoded_groups_accepted gs gs' :
  Forall2 decoded_group gs gs' → Forall accepted gs'.
Proof.
  induction 1 as [|g g' gs gs' (_ & Hg' & _) _ IH]; constructor; done.
Qed.

(** A group out of the order of the tie-break chain makes the decoded
    text differ from the label. *)
Lemma decoded_groups_differ gs gs' :
  Forall2 decoded_group gs gs' →
  forallb (λ g, canonical (g_dias g)) gs = false →
  concat (render <$> gs') ≠ concat (render <$> gs).
Proof.
  induction 1 as [|g g' gs gs' Hdec Hrest IH]; [done|].
  cbn [forallb]. intros Hcan. rewrite !fmap_cons. cbn [concat].
  pose proof (decoded_groups_accepted _ _ Hrest) as Hacc'.
  destruct Hdec as (Hg & Hg' & Hhs & Hf & Hd).
  unfold render at 1 3. rewrite Hhs, Hf, <-!app_assoc.
  intros Heq. do 2 apply app_inv_head in Heq.
  unfold decoded_dias in Hd.
  destruct (canonical (g_dias g)) eqn:Hc.
  - rewrite Hd in Heq. apply app_inv_head in Heq. by apply IH.
  - destruct (accepted_parts g Hg) as [_ Hds].
    destruct Hg as [_ Hv]. unfold valid in Hv.
    apply andb_true_iff in Hv as [_ Hdis].
    destruct (g_dias g) as [|d|d1 d2]; [done..|].
    cbn [dias_ok dias_distinct] in *.
    apply andb_true_iff in Hds as [_ Hd2].
    apply negb_true_iff, N.eqb_neq in Hdis.
    destruct Hd as [Hd|[Hd|Hd]]; rewrite Hd in Heq; cbn [render_dias app] in Heq.
    + injection Heq as Heq _. congruence.
    + injection Heq as Heq.
      pose proof (group_start_concat gs' Hacc') as Hstart.
      rewrite Heq in Hstart. cbn [group_start] in Hstart.
      rewrite Hd2 in Hstart. discriminate Hstart.
    + injection Heq as Heq _. congruence.
Qed.

End lossy_decoding.

(** X16.  The order of the tie-break chain is necessary for the round
    trip: for a label that [label_transform] accepts, with at most
    [max_grps] groups, of which one carries its two diacritics in another
    order, [decode] of the exact logits of the encoding returns a text
    that differs from the label. *)
Theorem round_trip_needs_tie_break_order
  (active : Z → bool) (topk2 : list Z → list Z * list nat)
  (max_grps : nat) (label : str) :
  active 1%Z = true → active 0%Z = false → Hindi.topk2_spec topk2 →
  Hindi.label_transform label ≠ [] →
  length (Hindi.label_transform label) ≤ max_grps →
  forallb tie_break_order (Hindi.label_transform label) = false →
  ∃ e out, Hindi.label_encoder max_grps label = Ok e ∧
           Hindi.decode active topk2 max_grps (Hindi.exact_logits e) = Ok [out] ∧
           out ≠ label.
Proof.
  intros Hon Hoff Htopk Hne Hlen Hord.
  destruct (label_transform_cases label) as [Hnil|Hcat]; [done|].
  destruct (label_transform_groups label) as (gs & Hgs & Hall).
  rewrite Hgs in Hlen, Hord, Hcat. rewrite length_fmap in Hlen.
  assert (forallb (λ g, canonical (g_dias g)) gs = false) as Hcan.
  { clear -Hall Hord. induction Hall as [|g gs Hg _ IH]; [done|].
    rewrite fmap_cons in Hord. cbn [forallb] in *.
    rewrite tie_break_order_render in Hord by done.
    destruct (canonical (g_dias g)); [by apply IH|done]. }
  destruct (decode_slots_any topk2 Htopk gs
              (after max_grps (length gs) ((0%Z, 0%Z, 0%Z, eos_row) : slot)
                 ((1%Z, 1%Z, 1%Z, pad_row) : slot)) [] Hall)
    as (gs' & Hdec & Heq).
  assert (decode_slots topk2 (slots max_grps gs) []
          = Ok (concat (render <$> gs'))) as Hds.
  { unfold slots. rewrite take_ge by done. etrans; [exact Heq|].
    by rewrite (decode_slots_after topk2 Htopk). }
  exists (expected max_grps gs), (concat (render <$> gs')).
  split; [by apply label_encoder_spec|]. split.
  - rewrite decode_exact_slots by (done || by apply length_slots).
    by rewrite Hds, bind_Ok.
  - rewrite <-Hcat. by apply decoded_groups_differ.
Qed.

Lemma round_trip_needs_tie_break_order_witness :
  ∃ e out, Hindi.label_encoder 25 [0x92E; 0x93E; 0x901]%N = Ok e ∧
           Hindi.decode Hindi.active_half Hindi.topk2_first 25
             (Hindi.exact_logits e) = Ok [out] ∧
           out ≠ [0x92E; 0x93E; 0x901]%N.
Proof.
  apply (round_trip_needs_tie_break_order Hindi.active_half Hindi.topk2_first 25
           [0x92E; 0x93E; 0x901]%N).
  - reflexivity.
  - reflexivity.
  - apply topk2_first_spec.
  - vm_compute. discriminate.
  - vm_compute. lia.
  - vm_compute. reflexivity.
Defined.

(** ** The shape of what [decode] returns *)

Lemma traverse_length {A B} (f : A → result B) (l : list A) (r : list B) :
  traverse f l = Ok r → length r = length l.
Proof.
  revert r. induction l as [|a l IH]; intros r; cbn [traverse].
  - by intros [= <-].
  - destruct (f a) as [b|e]; [|discriminate]. rewrite bind_Ok.
    destruct (traverse f l) as [bs|e]; [|discriminate]. rewrite bind_Ok.
    intros [= <-]. cbn [length]. by rewrite (IH bs).
Qed.

(** X17.  When [decode] returns, it returns one label for each item of
    the batch. *)
Theorem decode_one_label_per_item
  (active : Z → bool) (topk2 : list Z → list Z * list nat) (max_grps : nat)
  (logits : list (list (list Z)) * list (list (list Z))
            * list (list (list Z)) * list (list (list Z)))
  (labels : list str) :
  Hindi.decode active topk2 max_grps logits = Ok labels →
  length labels = length logits.1.1.1.
Proof.
  destruct logits as [[[h2 h1] f] d]. unfold Hindi.decode. cbn [fst].
  destruct (traverse (traverse argmax) h2) as [h2p|e]; [|discriminate].
  rewrite bind_Ok.
  destruct (traverse (traverse argmax) h1) as [h1p|e]; [|discriminate].
  rewrite bind_Ok.
  destruct (traverse (traverse argmax) f) as [fp|e]; [|discriminate].
  rewrite bind_Ok. cbv zeta.
  destruct (traverse (traverse (Hindi.topk_row topk2)) _) as [tk|e];
    [|discriminate].
  rewrite bind_Ok. intros Hl%traverse_length. by rewrite Hl, length_seq.
Qed.

Lemma decode_one_label_per_item_witness :
  length [[0x915%N]]
  = length (Hindi.exact_logits
              (Hindi.Encoded [2%Z] [2%Z] [2%Z] [replicate 18 0%Z] 1)).1.1.1.
Proof.
  apply (decode_one_label_per_item Hindi.active_half Hindi.topk2_first 1).
  vm_compute. reflexivity.
Defined.
